(** * AddMachineForm: readiness gate, validation schema, submission mapping

    A shallow embedding of [ui/src/app/machines/views/AddMachine/
    AddMachineForm/AddMachineForm.js]: the JavaScript values and operators
    the component evaluates, the regular expression of its MAC-address
    rules, the Yup schema [generateMachineSchema] builds, and the
    component's render function, handlers and effects as functions on an
    explicit store and local state. *)

From Stdlib Require Import List String Ascii Bool Arith Lia DecimalString.
From Stdlib Require DecimalNat DecimalFacts.
Import ListNotations.
Open Scope string_scope.

Set Implicit Arguments.
Set Warnings "-register-all".

(** ** JavaScript values *)

Module JS.

(** The primitive values that reach the component's expressions:
    [undefined], booleans, array lengths, strings. *)
Inductive value :=
| Undefined
| Bool (b : bool)
| Num (n : nat)
| Str (s : string).

(** ToBoolean: [undefined], [false], [0] and [""] are falsy. *)
Definition truthy (v : value) : bool :=
  match v with
  | Undefined => false
  | Bool b => b
  | Num n => negb (n =? 0)%nat
  | Str s => negb (s =? "")
  end.

(** [a && b] and [a || b] return one of their operands. *)
Definition and_ (a b : value) : value := if truthy a then b else a.
Definition or_ (a b : value) : value := if truthy a then a else b.

(** [a === b] on primitives. *)
Definition strict_eq (a b : value) : bool :=
  match a, b with
  | Undefined, Undefined => true
  | Bool x, Bool y => Bool.eqb x y
  | Num x, Num y => (x =? y)%nat
  | Str x, Str y => x =? y
  | _, _ => false
  end.

(** ToString, as a template literal [`${v}`] applies it. *)
Definition to_string (v : value) : string :=
  match v with
  | Undefined => "undefined"
  | Bool true => "true"
  | Bool false => "false"
  | Num n => NilEmpty.string_of_uint (Nat.to_uint n)
  | Str s => s
  end.

(** [xs[i]]: out of range reads give [undefined]. *)
Definition index {A} (inj : A -> value) (xs : list A) (i : nat) : value :=
  match nth_error xs i with
  | Some x => inj x
  | None => Undefined
  end.

End JS.

(** ** Regular expressions

    The fragment of JavaScript regular expressions the schema uses:
    anchors, character classes, literal characters, sequencing and
    bounded repetition [r{n}].  A cursor is the offset reached and the
    input left; [run] returns every cursor a match can end at. *)

Module Regex.

Inductive t :=
| Bol                                   (* ^ *)
| Eol                                   (* $ *)
| Class (ranges : list (ascii * ascii)) (* [a-bc-d] *)
| Char (c : ascii)
| Seq (r1 r2 : t)
| Repeat (n : nat) (r : t).             (* r{n} *)

Definition cursor : Type := nat * list ascii.

Definition in_range (c : ascii) (r : ascii * ascii) : bool :=
  (nat_of_ascii (fst r) <=? nat_of_ascii c)%nat &&
  (nat_of_ascii c <=? nat_of_ascii (snd r))%nat.

Definition step (p : ascii -> bool) (c : cursor) : list cursor :=
  match c with
  | (pos, a :: rest) => if p a then [(S pos, rest)] else []
  | (_, []) => []
  end.

Fixpoint times (n : nat) (f : cursor -> list cursor) (cs : list cursor)
  : list cursor :=
  match n with
  | 0 => cs
  | S n' => times n' f (flat_map f cs)
  end.

Fixpoint run (r : t) (c : cursor) : list cursor :=
  match r with
  | Bol => match fst c with 0 => [c] | S _ => [] end
  | Eol => match snd c with [] => [c] | _ :: _ => [] end
  | Class ranges => step (fun a => existsb (in_range a) ranges) c
  | Char x => step (Ascii.eqb x) c
  | Seq r1 r2 => flat_map (run r2) (run r1 c)
  | Repeat n r' => times n (run r') [c]
  end.

Definition matches_at (r : t) (c : cursor) : bool :=
  match run r c with [] => false | _ :: _ => true end.

(** [String.prototype.search]: the first offset a match starts at;
    [None] stands for the [-1] of a failed search. *)
Fixpoint search_from (r : t) (pos : nat) (input : list ascii) : option nat :=
  if matches_at r (pos, input) then Some pos
  else match input with
       | [] => None
       | _ :: rest => search_from r (S pos) rest
       end.

Definition search (r : t) (s : string) : option nat :=
  search_from r 0 (list_ascii_of_string s).

(** [s.search(r) !== -1] *)
Definition found (r : t) (s : string) : bool :=
  match search r s with Some _ => true | None => false end.

End Regex.

(** [/^([0-9A-Fa-f]{2}:){5}([0-9A-Fa-f]{2})$/] *)
Definition hex_class : Regex.t :=
  Regex.Class [("0"%char, "9"%char); ("A"%char, "F"%char); ("a"%char, "f"%char)].

Definition hex_pair : Regex.t := Regex.Repeat 2 hex_class.

Definition mac_regex : Regex.t :=
  Regex.Seq Regex.Bol
    (Regex.Seq
       (Regex.Repeat 5 (Regex.Seq hex_pair (Regex.Char ":"%char)))
       (Regex.Seq hex_pair Regex.Eol)).

(** The six-octet colon-hex shape, stated directly: two hexadecimal
    digits, then either the end of the string (last octet) or a colon
    and the remaining octets. *)
Definition is_hex_digit (c : ascii) : bool :=
  existsb (Ascii.eqb c) (list_ascii_of_string "0123456789ABCDEFabcdef").

Fixpoint octets (more : nat) (s : list ascii) : bool :=
  match s with
  | a :: b :: rest =>
      is_hex_digit a && is_hex_digit b &&
      match more, rest with
      | 0, [] => true
      | S more', c :: rest' => Ascii.eqb c ":"%char && octets more' rest'
      | _, _ => false
      end
  | _ => false
  end.

Definition six_octets (s : string) : bool := octets 5 (list_ascii_of_string s).

(** ** Yup

    The validation semantics of the Yup schema constructors the form
    calls: [string()], [matches], [required], [when], [array().of] and
    [object().shape].  Yup is a dependency of the repository, so this
    is its behaviour as the library defines it: [matches] passes an
    absent value and otherwise searches the string, the empty one
    included; [required] on a string wants a value of positive length;
    [when] concatenates the resolved [then] schema to the schema it is
    called on; an object casts its fields before it validates them,
    each with the cast object as parent.  Validation collects every
    failure ([abortEarly: false], as Formik validates), each with the
    path of the field it belongs to. *)

Module Yup.

Inductive segment :=
| Key (k : string)
| Index (i : nat).

Definition path := list segment.
Definition error : Type := path * string.

(** The data a schema validates. *)
Inductive data :=
| Scalar (v : JS.value)
| Array (items : list data)
| Object (fields : list (string * data)).

(** [o[k]]: the first binding of [k], [undefined] when there is none. *)
Fixpoint get (k : string) (o : list (string * data)) : data :=
  match o with
  | [] => Scalar JS.Undefined
  | (k', d) :: o' => if k' =? k then d else get k o'
  end.

Inductive test :=
| Required (message : string)
| Matches (regex : Regex.t) (message : string).

Definition test_name (t : test) : string :=
  match t with
  | Required _ => "required"
  | Matches _ _ => "matches"
  end.

Definition message (t : test) : string :=
  match t with
  | Required m => m
  | Matches _ m => m
  end.

(** [required] is an exclusive test: adding it replaces an earlier
    [required]; each [matches] is kept. *)
Definition exclusive (t : test) : bool :=
  match t with
  | Required _ => true
  | Matches _ _ => false
  end.

Definition add_test (t : test) (ts : list test) : list test :=
  (if exclusive t
   then filter (fun u => negb (test_name u =? test_name t)) ts
   else ts) ++ [t].

(** [when(key, { is, then })] *)
Record condition (S : Type) := When {
  key : string;
  is_ : data -> bool;
  then_ : S;
}.

Inductive string_schema :=
| StringSchema (tests : list test) (conditions : list (condition string_schema)).

Inductive schema :=
| SString (s : string_schema)
| SArray (item : schema)
| SObject (fields : list (string * schema)).

(** The builders, in the order a method chain applies them. *)
Definition string_ : string_schema := StringSchema [] [].

Definition required (msg : string) (s : string_schema) : string_schema :=
  match s with
  | StringSchema ts cs => StringSchema (add_test (Required msg) ts) cs
  end.

Definition matches (re : Regex.t) (msg : string) (s : string_schema)
  : string_schema :=
  match s with
  | StringSchema ts cs => StringSchema (add_test (Matches re msg) ts) cs
  end.

Definition when (k : string) (is_ : data -> bool) (then_ : string_schema)
  (s : string_schema) : string_schema :=
  match s with
  | StringSchema ts cs => StringSchema ts (cs ++ [When k is_ then_])
  end.

Definition array_of (item : schema) : schema := SArray item.
Definition object_shape (fields : list (string * schema)) : schema :=
  SObject fields.

(** [base.concat(other)]: the tests of [other] are added to those of
    [base] one by one. *)
Definition concat_tests (base other : list test) : list test :=
  fold_left (fun acc t => add_test t acc) other base.

(** Resolving a schema against the parent object: each condition whose
    [is] holds of the sibling it names concatenates its resolved [then]
    branch. *)
Fixpoint resolve (sibling : string -> data) (s : string_schema) : list test :=
  match s with
  | StringSchema ts cs =>
      fold_left
        (fun acc c =>
           match c with
           | When k is_ then_ =>
               if is_ (sibling k)
               then concat_tests acc (resolve sibling then_)
               else acc
           end)
        cs ts
  end.

(** A test on a value that passed the type check: [None] is
    [undefined].  [matches] lets an absent value through; [required]
    wants a string of positive length. *)
Definition passes (t : test) (v : option string) : bool :=
  match t, v with
  | Required _, Some s => negb (s =? "")
  | Required _, None => false
  | Matches re _, Some s => Regex.found re s
  | Matches _ _, None => true
  end.

Definition failures (ts : list test) (v : option string) : list string :=
  flat_map (fun t => if passes t v then [] else [message t]) ts.

Definition type_error : string := "typeError".

Definition under (seg : segment) (es : list error) : list error :=
  map (fun e => (seg :: fst e, snd e)) es.

Definition here (ms : list string) : list error :=
  map (fun m => ([], m)) ms.

Definition indexed {A} (xs : list A) : list (nat * A) :=
  combine (seq 0 (List.length xs)) xs.

(** The string schema's cast: a value that is not a string is converted
    with [toString], [undefined] is left alone. *)
Definition cast_string (v : JS.value) : JS.value :=
  match v with
  | JS.Undefined => JS.Undefined
  | other => JS.Str (JS.to_string other)
  end.

(** Casting runs once, at the top, and reaches every field of the shape;
    an absent object is cast as the empty one. *)
Fixpoint cast (s : schema) (d : data) : data :=
  match s, d with
  | SString _, Scalar v => Scalar (cast_string v)
  | SArray item, Array ds => Array (map (cast item) ds)
  | SObject fs, Object o =>
      Object (map (fun ks => (fst ks, cast (snd ks) (get (fst ks) o))) fs)
  | SObject fs, Scalar JS.Undefined =>
      Object (map (fun ks => (fst ks, cast (snd ks) (Scalar JS.Undefined))) fs)
  | _, _ => d
  end.

(** Strict validation of cast data.  [parent] is the object the value is
    a field of (empty for array items); a value of the wrong kind for
    its schema is a type error. *)
Fixpoint check (parent : list (string * data)) (s : schema) (d : data)
  : list error :=
  match s with
  | SString ss =>
      match d with
      | Scalar JS.Undefined =>
          here (failures (resolve (fun k => get k parent) ss) None)
      | Scalar (JS.Str v) =>
          here (failures (resolve (fun k => get k parent) ss) (Some v))
      | _ => here [type_error]
      end
  | SArray item =>
      match d with
      | Scalar JS.Undefined => []
      | Array ds =>
          flat_map (fun id => under (Index (fst id)) (check [] item (snd id)))
                   (indexed ds)
      | _ => here [type_error]
      end
  | SObject fs =>
      match d with
      | Object o =>
          flat_map (fun ks => under (Key (fst ks)) (check o (snd ks) (get (fst ks) o)))
                   fs
      | _ => here [type_error]
      end
  end.

(** [d === v] for a primitive [v]: an array or object never is. *)
Definition strict_eq (d : data) (v : JS.value) : bool :=
  match d with
  | Scalar u => JS.strict_eq u v
  | _ => false
  end.

(** [schema.validate(values, { abortEarly: false })] *)
Definition validate (s : schema) (d : data) : list error :=
  check [] s (cast s d).

(** The errors reported under field [k], with paths relative to it. *)
Definition field_errors (k : string) (es : list error) : list error :=
  flat_map
    (fun e =>
       match fst e with
       | Key k' :: rest => if k' =? k then [(rest, snd e)] else []
       | _ => []
       end)
    es.

End Yup.

Coercion Yup.SString : Yup.string_schema >-> Yup.schema.

(** Method chaining: [x |> f |> g] is [x.f().g()]. *)
Notation "x |> f" := (f x) (at level 45, left associativity, only parsing).

(** ** The data the component reads and writes *)

(** A record of a reference collection (domain, resource pool, zone,
    power type); the component reads its [name] only. *)
Record Item := {
  item_id : nat;
  name : string;
}.

(** The form's values, with the keys of [initialValues]. *)
Module Values.

Record t := {
  architecture : JS.value;
  domain : JS.value;
  extra_macs : list JS.value;
  hostname : JS.value;
  min_hwe_kernel : JS.value;
  pool : JS.value;
  power_parameters : list (string * JS.value);
  power_type : JS.value;
  pxe_mac : JS.value;
  zone : JS.value;
}.

(** The values as the object handed to the validation schema. *)
Definition to_data (v : t) : Yup.data :=
  Yup.Object
    [ ("architecture", Yup.Scalar (architecture v));
      ("domain", Yup.Scalar (domain v));
      ("extra_macs", Yup.Array (map Yup.Scalar (extra_macs v)));
      ("hostname", Yup.Scalar (hostname v));
      ("min_hwe_kernel", Yup.Scalar (min_hwe_kernel v));
      ("pool", Yup.Scalar (pool v));
      ("power_parameters",
        Yup.Object (map (fun kv => (fst kv, Yup.Scalar (snd kv)))
                        (power_parameters v)));
      ("power_type", Yup.Scalar (power_type v));
      ("pxe_mac", Yup.Scalar (pxe_mac v));
      ("zone", Yup.Scalar (zone v)) ].

End Values.

(** The [params] object [onSubmit] builds; [P] is what
    [formatPowerParameters] returns.  [None] is [undefined], the result
    of an [Array.prototype.find] that found nothing. *)
Module Params.

Record t (P : Type) := {
  architecture : JS.value;
  domain : option Item;
  extra_macs : list JS.value;
  hostname : JS.value;
  min_hwe_kernel : JS.value;
  pool : option Item;
  power_parameters : P;
  power_type : JS.value;
  pxe_mac : JS.value;
  zone : option Item;
}.

End Params.

(** The actions the component dispatches. *)
Inductive Action (P : Type) :=
| DomainFetch
| FetchArchitectures
| FetchDefaultMinHweKernel
| FetchHweKernels
| FetchPowerTypes
| ResourcePoolFetch
| ZoneFetch
| MachineCreate (params : Params.t P)
| MachineCleanup
| MessageAdd (message : string).

Arguments DomainFetch {P}.
Arguments FetchArchitectures {P}.
Arguments FetchDefaultMinHweKernel {P}.
Arguments FetchHweKernels {P}.
Arguments FetchPowerTypes {P}.
Arguments ResourcePoolFetch {P}.
Arguments ZoneFetch {P}.
Arguments MachineCleanup {P}.
Arguments MessageAdd {P} message.

(** [machineErrors]: nothing, one message, or an object of field name
    to message whose bindings are listed in the order [Object.keys]
    enumerates them. *)
Inductive MachineErrors :=
| NoErrors
| ErrorString (s : string)
| ErrorObject (o : list (string * string)).

(** What the selectors return. *)
Module Store.

Record t := {
  architectures : list string;
  architecturesLoaded : bool;
  defaultMinHweKernel : JS.value;
  defaultMinHweKernelLoaded : bool;
  domains : list Item;
  domainsLoaded : bool;
  hweKernelsLoaded : bool;
  machineSaved : bool;
  machineSaving : bool;
  machineErrors : MachineErrors;
  powerTypes : list Item;
  powerTypesLoaded : bool;
  resourcePools : list Item;
  resourcePoolsLoaded : bool;
  zones : list Item;
  zonesLoaded : bool;
}.

End Store.

(** The [powerType] state: [""] until [onValuesChanged] stores the
    result of a [find]. *)
Inductive PowerTypeState :=
| PowerTypeEmpty
| PowerTypeFound (found : option Item).

(** The component's [useState] cells. *)
Module State.

Record t := {
  powerType : PowerTypeState;
  resetOnSave : bool;
  savingMachine : JS.value;
}.

Definition initial : t :=
  {| powerType := PowerTypeEmpty;
     resetOnSave := false;
     savingMachine := JS.Bool false |}.

Definition setPowerType (x : PowerTypeState) (s : t) : t :=
  {| powerType := x;
     resetOnSave := resetOnSave s;
     savingMachine := savingMachine s |}.

Definition setResetOnSave (x : bool) (s : t) : t :=
  {| powerType := powerType s;
     resetOnSave := x;
     savingMachine := savingMachine s |}.

Definition setSavingMachine (x : JS.value) (s : t) : t :=
  {| powerType := powerType s;
     resetOnSave := resetOnSave s;
     savingMachine := x |}.

End State.

(** The props the component hands to [FormikForm]. *)
Module FormikForm.

Record props := {
  buttonsHelpLabel : string;
  buttonsHelpLink : string;
  errors : string;
  initialValues : Values.t;
  onSaveAnalytics : string * string * string;
  resetOnSave : bool;
  saving : bool;
  saved : bool;
  savedRedirect : option string;
  secondarySubmitLabel : string;
  submitLabel : string;
  validationSchema : Yup.schema;
}.

(** What the form wrapper does towards the outside. *)
Inductive outcome :=
| NavigateTo (pathname : string)
| ResetForm (values : Values.t).


End FormikForm.

Inductive View :=
| Spinner (text : string)
| FormCard (sidebar : bool) (title : string) (form : FormikForm.props).

(** ** The component *)

Definition generateMachineSchema (parametersSchema : list (string * Yup.schema))
  : Yup.schema :=
  Yup.object_shape
    [ ("architecture",
        Yup.SString (Yup.string_ |> Yup.required "Architecture required"));
      ("domain", Yup.SString (Yup.string_ |> Yup.required "Domain required"));
      ("extra_macs",
        Yup.array_of
          (Yup.string_ |> Yup.matches mac_regex "Invalid MAC address"));
      ("hostname", Yup.SString Yup.string_);
      ("min_hwe_kernel", Yup.SString Yup.string_);
      ("pool",
        Yup.SString (Yup.string_ |> Yup.required "Resource pool required"));
      ("power_parameters", Yup.object_shape parametersSchema);
      ("power_type",
        Yup.SString (Yup.string_ |> Yup.required "Power type required"));
      ("pxe_mac",
        Yup.SString
          (Yup.string_
           |> Yup.matches mac_regex "Invalid MAC address"
           |> Yup.when "power_type"
                (fun power_type =>
                   negb (Yup.strict_eq power_type (JS.Str "ipmi")))
                (Yup.string_
                 |> Yup.required "At least one MAC address required")));
      ("zone", Yup.SString (Yup.string_ |> Yup.required "Zone required")) ].

(** [Object.keys(o)] and [o[key]] on an error object. *)
Definition object_keys (o : list (string * string)) : list string :=
  map fst o.

Fixpoint object_get (o : list (string * string)) (key : string) : JS.value :=
  match o with
  | [] => JS.Undefined
  | (k, m) :: o' => if k =? key then JS.Str m else object_get o' key
  end.

(** The [errors] string computed on every render. *)
Definition errors (machineErrors : MachineErrors) : string :=
  match machineErrors with
  | NoErrors => ""
  | ErrorString s => if JS.truthy (JS.Str s) then s else ""
  | ErrorObject o =>
      fold_left
        (fun errors key => errors ++ (JS.to_string (object_get o key) ++ " "))
        (object_keys o) ""
  end.

Definition allLoaded (store : Store.t) : bool :=
  Store.architecturesLoaded store &&
  Store.defaultMinHweKernelLoaded store &&
  Store.domainsLoaded store &&
  Store.hweKernelsLoaded store &&
  Store.powerTypesLoaded store &&
  Store.resourcePoolsLoaded store &&
  Store.zonesLoaded store.

(** [(xs.length && xs[0].name) || ""]; the right operand of [&&] is read
    only when the length is truthy, where index 0 is in range. *)
Definition first_name (xs : list Item) : JS.value :=
  JS.or_
    (JS.and_ (JS.Num (List.length xs))
             (JS.index (fun x => JS.Str (name x)) xs 0))
    (JS.Str "").

(** ** What the schema asks of a field

    The two conditions its rules put on a value, read after the string
    cast: [filled] is a string of positive length, [mac_or_absent] is
    [undefined] or a string of six octets. *)
Definition filled (v : JS.value) : bool :=
  match Yup.cast_string v with
  | JS.Str s => negb (s =? "")
  | _ => false
  end.

Definition mac_or_absent (v : JS.value) : bool :=
  match Yup.cast_string v with
  | JS.Undefined => true
  | JS.Str s => six_octets s
  | _ => false
  end.

(** ** The name column of the machine list

    [generateIPAddresses] of [ui/src/app/machines/views/MachineList/
    MachineListTable/NameColumn/NameColumn.js]: the loop that gathers
    the addresses to show, and the element it returns. *)

Module NameColumn.

Record Address := {
  ip : string;
  is_boot : bool;
}.

(** The part of a machine [generateIPAddresses] reads; [None] is a
    machine without [ip_addresses]. *)
Record Machine := {
  ip_addresses : option (list Address);
}.

(** [ipAddresses.includes(ip)] *)
Definition includes (ipAddresses : list string) (ip : string) : bool :=
  existsb (String.eqb ip) ipAddresses.

(** One turn of the [forEach]: the state is [ipAddresses] and [bootIP]
    ([None] while it is [undefined]). *)
Definition visit (state : list string * option string) (address : Address)
  : list string * option string :=
  let ipAddresses := fst state in
  let bootIP := snd state in
  let ip0 := ip address in
  let ip1 := if is_boot address then ip0 ++ " (PXE)" else ip0 in
  let bootIP := if is_boot address then Some ip1 else bootIP in
  if negb (includes ipAddresses ip1)
  then ((ipAddresses ++ [ip1])%list, bootIP)
  else (ipAddresses, bootIP).

(** [(machine.ip_addresses || []).forEach(...)] *)
Definition collect (machine : Machine) : list string * option string :=
  fold_left visit
    (match ip_addresses machine with
     | Some addresses => addresses
     | None => []
     end)
    ([], None).

(** The [span] of the addresses line: its [title] ([None] is [null]),
    the address it shows and the count that follows it. *)
Record Span := {
  title : option string;
  shown : JS.value;
  more : option string;
}.

Inductive Element :=
| EmptyString
| Line (span : Span)
| Tooltip (position : string) (interfaces : nat) (items : list string)
    (positionElementClassName : string) (children : Span).

Definition generateIPAddresses (machine : Machine) : Element :=
  let ipAddresses := fst (collect machine) in
  let bootIP := snd (collect machine) in
  if JS.truthy (JS.Num (List.length ipAddresses)) then
    let ipAddressesLine :=
      {| title :=
           if (List.length ipAddresses =? 1)%nat
           then nth_error ipAddresses 0 else None;
         shown :=
           JS.or_
             (match bootIP with Some b => JS.Str b | None => JS.Undefined end)
             (JS.index JS.Str ipAddresses 0);
         more :=
           if (1 <? List.length ipAddresses)%nat
           then Some (" (+" ++ JS.to_string (JS.Num (List.length ipAddresses - 1))
                      ++ ")")
           else None |} in
    if (List.length ipAddresses =? 1)%nat then Line ipAddressesLine
    else
      Tooltip "btm-left" (List.length ipAddresses) ipAddresses
        "p-double-row__tooltip-inner" ipAddressesLine
  else EmptyString.

(** What an address appears as: a boot address carries the mark. *)
Definition label (address : Address) : string :=
  if is_boot address then ip address ++ " (PXE)" else ip address.

End NameColumn.

(** ** Further inputs *)

Module Sample.

(** Two domains of the same name, and no resource pool. *)
Definition store : Store.t :=
  {| Store.architectures := [];
     Store.architecturesLoaded := true;
     Store.defaultMinHweKernel := JS.Undefined;
     Store.defaultMinHweKernelLoaded := true;
     Store.domains :=
       [{| item_id := 3; name := "maas" |}; {| item_id := 7; name := "maas" |}];
     Store.domainsLoaded := true;
     Store.hweKernelsLoaded := true;
     Store.machineSaved := false;
     Store.machineSaving := false;
     Store.machineErrors := NoErrors;
     Store.powerTypes :=
       [{| item_id := 0; name := "manual" |}; {| item_id := 1; name := "ipmi" |}];
     Store.powerTypesLoaded := true;
     Store.resourcePools := [];
     Store.resourcePoolsLoaded := true;
     Store.zones := [{| item_id := 1; name := "default" |}];
     Store.zonesLoaded := true |}.


(** A machine with a boot address seen twice and two other addresses,
    one of them twice. *)
Definition addresses : list NameColumn.Address :=
  [ {| NameColumn.ip := "10.0.0.2"; NameColumn.is_boot := false |};
    {| NameColumn.ip := "10.0.0.1"; NameColumn.is_boot := true |};
    {| NameColumn.ip := "10.0.0.2"; NameColumn.is_boot := false |};
    {| NameColumn.ip := "10.0.0.1"; NameColumn.is_boot := true |};
    {| NameColumn.ip := "10.0.0.3"; NameColumn.is_boot := false |} ].

Definition machine : NameColumn.Machine :=
  {| NameColumn.ip_addresses := Some addresses |}.

(** A machine without boot address. *)
Definition plain_addresses : list NameColumn.Address :=
  [ {| NameColumn.ip := "10.0.0.7"; NameColumn.is_boot := false |};
    {| NameColumn.ip := "10.0.0.4"; NameColumn.is_boot := false |} ].

End Sample.

(** ** Concrete inputs

    The collections and value sets the properties below are run on. *)

Module Scenario.

(** One item per collection, everything loaded. *)
Definition store (saved : bool) : Store.t :=
  {| Store.architectures := ["amd64"];
     Store.architecturesLoaded := true;
     Store.defaultMinHweKernel := JS.Str "";
     Store.defaultMinHweKernelLoaded := true;
     Store.domains := [{| item_id := 0; name := "maas" |}];
     Store.domainsLoaded := true;
     Store.hweKernelsLoaded := true;
     Store.machineSaved := saved;
     Store.machineSaving := false;
     Store.machineErrors := NoErrors;
     Store.powerTypes :=
       [{| item_id := 0; name := "manual" |}; {| item_id := 1; name := "ipmi" |}];
     Store.powerTypesLoaded := true;
     Store.resourcePools := [{| item_id := 0; name := "default" |}];
     Store.resourcePoolsLoaded := true;
     Store.zones := [{| item_id := 1; name := "default" |}];
     Store.zonesLoaded := true |}.

Definition values (domain hostname power_type pxe_mac : JS.value)
  (extra_macs : list JS.value) : Values.t :=
  {| Values.architecture := JS.Str "amd64";
     Values.domain := domain;
     Values.extra_macs := extra_macs;
     Values.hostname := hostname;
     Values.min_hwe_kernel := JS.Str "";
     Values.pool := JS.Str "default";
     Values.power_parameters := [];
     Values.power_type := power_type;
     Values.pxe_mac := pxe_mac;
     Values.zone := JS.Str "default" |}.

(** The "manual" power type with no primary address. *)
Definition manual_no_address : Values.t :=
  values (JS.Str "maas") (JS.Str "") (JS.Str "manual") JS.Undefined [].

(** The "ipmi" power type with no primary address. *)
Definition ipmi_no_address : Values.t :=
  values (JS.Str "maas") (JS.Str "") (JS.Str "ipmi") JS.Undefined [].

(** The "ipmi" power type with a malformed primary address. *)
Definition ipmi_bad_address : Values.t :=
  values (JS.Str "maas") (JS.Str "") (JS.Str "ipmi") (JS.Str "not-a-mac") [].

(** One well-formed and one malformed secondary address. *)
Definition two_extra_macs : Values.t :=
  values (JS.Str "maas") (JS.Str "") (JS.Str "manual")
    (JS.Str "AA:BB:CC:DD:EE:FF")
    [JS.Str "AA:BB:CC:DD:EE:FF"; JS.Str "not-a-mac"].

(** A domain name that is not in the loaded domains. *)
Definition stale_domain : Values.t :=
  values (JS.Str "gone") (JS.Str "node1") (JS.Str "manual")
    (JS.Str "AA:BB:CC:DD:EE:FF") [].

(** The hostname left empty, and an empty secondary address among the
    filled ones. *)
Definition no_hostname : Values.t :=
  values (JS.Str "maas") (JS.Str "") (JS.Str "manual")
    (JS.Str "AA:BB:CC:DD:EE:FF")
    [JS.Str "00:11:22:33:44:55"; JS.Str ""; JS.Str "66:77:88:99:AA:BB"].

(** Stand-ins for the collaborators when the component is run on the
    inputs above. *)
Definition formatPowerParameters (powerType : PowerTypeState)
  (parameters : list (string * JS.value)) (kind : string)
  : list (string * JS.value) := parameters.

Definition useAllPowerParameters (powerTypes : list Item)
  : list (string * JS.value) := [].

Definition usePowerParametersSchema (powerType : PowerTypeState)
  (generateSchema : list (string * Yup.schema) -> Yup.schema) : Yup.schema :=
  generateSchema [].

End Scenario.

Section Component.

(** Collaborators of [app/base/hooks] and [app/utils], taken as they
    are. *)
Variable FormattedParameters : Type.
Variable formatPowerParameters :
  PowerTypeState -> list (string * JS.value) -> string -> FormattedParameters.
Variable useAllPowerParameters : list Item -> list (string * JS.value).
Variable usePowerParametersSchema :
  PowerTypeState -> (list (string * Yup.schema) -> Yup.schema) -> Yup.schema.

Definition initialValues (store : Store.t) : Values.t :=
  {| Values.architecture :=
       JS.or_
         (JS.and_ (JS.Num (List.length (Store.architectures store)))
                  (JS.index JS.Str (Store.architectures store) 0))
         (JS.Str "");
     Values.domain := first_name (Store.domains store);
     Values.extra_macs := [];
     Values.hostname := JS.Str "";
     Values.min_hwe_kernel :=
       JS.or_ (Store.defaultMinHweKernel store) (JS.Str "");
     Values.pool := first_name (Store.resourcePools store);
     Values.power_parameters := useAllPowerParameters (Store.powerTypes store);
     Values.power_type := JS.Str "";
     Values.pxe_mac := JS.Str "";
     Values.zone := first_name (Store.zones store) |}.

(** [items.find((item) => item.name === value)] *)
Definition find_by_name (items : list Item) (value : JS.value) : option Item :=
  find (fun item => JS.strict_eq (JS.Str (name item)) value) items.

(** The first effect: fetch all data required for the form. *)
Definition fetch_effect : list (Action FormattedParameters) :=
  [ DomainFetch; FetchArchitectures; FetchDefaultMinHweKernel;
    FetchHweKernels; FetchPowerTypes; ResourcePoolFetch; ZoneFetch ].

(** The second effect. *)
Definition reset_effect (store : Store.t) (st : State.t) : State.t :=
  if Store.machineSaved store && State.resetOnSave st
  then State.setResetOnSave false st
  else st.

(** Modelled from the spec: the hook [useAddMessage] of [app/base/hooks]
    is not among the sources.  Once its condition holds it emits the
    notification it was given; the cleanup action and the callback the
    call site hands over go with it. *)
Definition useAddMessage (addCondition : bool)
  (cleanup : Action FormattedParameters) (message : string)
  (onMessageAdded : State.t -> State.t) (st : State.t)
  : State.t * list (Action FormattedParameters) :=
  if addCondition
  then (onMessageAdded st, [MessageAdd message; cleanup])
  else (st, []).

(** The text handed to [useAddMessage]. *)
Definition saved_message (st : State.t) : string :=
  JS.to_string (State.savingMachine st) ++ " added successfully.".

(** The effects of one render, in the order the component declares
    them; the message is the one of the render they belong to. *)
Definition effects (store : Store.t) (st : State.t)
  : State.t * list (Action FormattedParameters) :=
  useAddMessage (Store.machineSaved store) MachineCleanup (saved_message st)
    (State.setSavingMachine (JS.Bool false))
    (reset_effect store st).

(** The handlers passed to [FormikForm]. *)
Definition onCancel : FormikForm.outcome := FormikForm.NavigateTo "/machines".

Definition onSubmit (store : Store.t) (st : State.t) (values : Values.t)
  : State.t * list (Action FormattedParameters) :=
  let params :=
    {| Params.architecture := Values.architecture values;
       Params.domain := find_by_name (Store.domains store) (Values.domain values);
       Params.extra_macs := filter JS.truthy (Values.extra_macs values);
       Params.hostname := Values.hostname values;
       Params.min_hwe_kernel := Values.min_hwe_kernel values;
       Params.pool :=
         find_by_name (Store.resourcePools store) (Values.pool values);
       Params.power_parameters :=
         formatPowerParameters (State.powerType st)
           (Values.power_parameters values) "node";
       Params.power_type := Values.power_type values;
       Params.pxe_mac := Values.pxe_mac values;
       Params.zone := find_by_name (Store.zones store) (Values.zone values) |}
  in
  (State.setSavingMachine (JS.or_ (Values.hostname values) (JS.Str "Machine")) st,
   [MachineCreate params]).

Definition onValuesChanged (store : Store.t) (st : State.t) (values : Values.t)
  : State.t :=
  State.setPowerType
    (PowerTypeFound
       (find_by_name (Store.powerTypes store) (Values.power_type values)))
    st.

Definition secondarySubmit (st : State.t) : State.t :=
  State.setResetOnSave true st.

Definition render (store : Store.t) (st : State.t) : View :=
  if negb (allLoaded store) then Spinner "Loading"
  else
    FormCard false "Add machine"
      {| FormikForm.buttonsHelpLabel := "Help with adding machines";
         FormikForm.buttonsHelpLink := "https://maas.io/docs/add-machines";
         FormikForm.errors := errors (Store.machineErrors store);
         FormikForm.initialValues := initialValues store;
         FormikForm.onSaveAnalytics :=
           (if State.resetOnSave st then "Save and add another" else "Save",
            "Machine", "Add machine form");
         FormikForm.resetOnSave := State.resetOnSave st;
         FormikForm.saving := Store.machineSaving store;
         FormikForm.saved := Store.machineSaved store;
         FormikForm.savedRedirect :=
           if State.resetOnSave st then None else Some "/machines";
         FormikForm.secondarySubmitLabel := "Save and add another";
         FormikForm.submitLabel := "Save machine";
         FormikForm.validationSchema :=
           usePowerParametersSchema (State.powerType st) generateMachineSchema |}.

(** Everything that can write the component's state. *)
Inductive Event :=
| SecondarySubmit
| Submit (values : Values.t)
| ValuesChanged (values : Values.t)
| Rendered.

Definition step (store : Store.t) (st : State.t) (ev : Event) : State.t :=
  match ev with
  | SecondarySubmit => secondarySubmit st
  | Submit values => fst (onSubmit store st values)
  | ValuesChanged values => onValuesChanged store st values
  | Rendered => fst (effects store st)
  end.


(** The state after a run of events, each with the store of its
    moment. *)
Fixpoint run (trace : list (Store.t * Event)) (st : State.t) : State.t :=
  match trace with
  | [] => st
  | (store, ev) :: rest => run rest (step store st ev)
  end.

(** * Properties *)

(** ** The MAC-address pattern *)

Example six_octets_upper : six_octets "AA:BB:CC:DD:EE:FF" = true.
Proof. reflexivity. Qed.

Example found_mixed_case : Regex.found mac_regex "0a:1B:2c:3D:4e:5F" = true.
Proof. reflexivity. Qed.

Example found_not_a_mac : Regex.found mac_regex "not-a-mac" = false.
Proof. reflexivity. Qed.

Example found_five_octets : Regex.found mac_regex "AA:BB:CC:DD:EE" = false.
Proof. reflexivity. Qed.

Example found_trailing_space : Regex.found mac_regex "AA:BB:CC:DD:EE:FF " = false.
Proof. reflexivity. Qed.

Example found_empty : Regex.found mac_regex "" = false.
Proof. reflexivity. Qed.

#[local] Abbreviation octet_colon := (Regex.Seq hex_pair (Regex.Char ":"%char)).
#[local] Abbreviation last_octet := (Regex.Seq hex_pair Regex.Eol).

Lemma hex_class_is_hex_digit (c : ascii) :
  existsb (Regex.in_range c)
    [("0"%char, "9"%char); ("A"%char, "F"%char); ("a"%char, "f"%char)]
  = is_hex_digit c.
Proof.
  destruct c as [[] [] [] [] [] [] [] []]; vm_compute; reflexivity.
Qed.

Lemma run_hex_pair pos s :
  Regex.run hex_pair (pos, s) =
  match s with
  | a :: b :: rest =>
      if is_hex_digit a && is_hex_digit b then [(S (S pos), rest)] else []
  | _ => []
  end.
Proof.
  unfold hex_pair, hex_class. cbn [Regex.run Regex.times flat_map Regex.step].
  destruct s as [|a [|b rest]]; cbn [Regex.step flat_map app].
  - reflexivity.
  - rewrite hex_class_is_hex_digit. destruct (is_hex_digit a); reflexivity.
  - rewrite hex_class_is_hex_digit.
    destruct (is_hex_digit a); cbn [Regex.step flat_map app andb];
      [|reflexivity].
    rewrite hex_class_is_hex_digit. destruct (is_hex_digit b); reflexivity.
Qed.

Lemma run_octet_colon pos s :
  Regex.run octet_colon (pos, s) =
  match s with
  | a :: b :: c :: rest =>
      if is_hex_digit a && is_hex_digit b && Ascii.eqb c ":"%char
      then [(S (S (S pos)), rest)] else []
  | _ => []
  end.
Proof.
  cbn [Regex.run]. rewrite run_hex_pair.
  destruct s as [|a [|b rest]]; try reflexivity.
  destruct (is_hex_digit a && is_hex_digit b); cbn [flat_map andb].
  - destruct rest as [|c rest]; cbn [Regex.run Regex.step app]; [reflexivity|].
    rewrite (Ascii.eqb_sym ":"%char c).
    destruct (Ascii.eqb c ":"%char); reflexivity.
  - destruct rest; reflexivity.
Qed.

Lemma run_last_octet pos s :
  Regex.matches_at last_octet (pos, s) =
  match s with
  | [a; b] => is_hex_digit a && is_hex_digit b
  | _ => false
  end.
Proof.
  unfold Regex.matches_at. cbn [Regex.run]. rewrite run_hex_pair.
  destruct s as [|a [|b [|c rest]]]; try reflexivity;
    destruct (is_hex_digit a && is_hex_digit b); reflexivity.
Qed.

Lemma times_nil n f : Regex.times n f [] = [].
Proof. induction n; cbn; auto. Qed.

Lemma run_seq r1 r2 c :
  Regex.run (Regex.Seq r1 r2) c = flat_map (Regex.run r2) (Regex.run r1 c).
Proof. reflexivity. Qed.

Lemma run_repeat_0 r c : Regex.run (Regex.Repeat 0 r) c = [c].
Proof. reflexivity. Qed.

Lemma run_repeat_S n r c :
  Regex.run (Regex.Repeat (S n) r) c = Regex.times n (Regex.run r) (Regex.run r c).
Proof.
  change (Regex.run (Regex.Repeat (S n) r) c)
    with (Regex.times n (Regex.run r) (Regex.run r c ++ [])).
  now rewrite app_nil_r.
Qed.

Lemma matches_octets n : forall pos s,
  Regex.matches_at (Regex.Seq (Regex.Repeat n octet_colon) last_octet) (pos, s)
  = octets n s.
Proof.
  induction n as [|n IH]; intros pos s.
  - transitivity (Regex.matches_at last_octet (pos, s)).
    { unfold Regex.matches_at.
      rewrite (run_seq (Regex.Repeat 0 _)), run_repeat_0.
      cbn [flat_map]. now rewrite app_nil_r. }
    rewrite run_last_octet.
    destruct s as [|a [|b [|c rest]]]; cbn [octets]; try reflexivity.
    + now rewrite andb_true_r.
    + now rewrite andb_false_r.
  - unfold Regex.matches_at.
    rewrite (run_seq (Regex.Repeat (S n) _)), run_repeat_S, run_octet_colon.
    destruct s as [|a [|b [|c rest]]]; cbn [octets];
      try (rewrite times_nil; cbn [flat_map]; now rewrite ?andb_false_r).
    destruct (is_hex_digit a && is_hex_digit b); cbn [andb];
      [|rewrite times_nil; reflexivity].
    destruct (Ascii.eqb c ":"%char); cbn [andb];
      [|rewrite times_nil; reflexivity].
    exact (IH (S (S (S pos))) rest).
Qed.

Lemma mac_regex_not_later pos s :
  Regex.search_from mac_regex (S pos) s = None.
Proof.
  revert pos. induction s as [|a s IH]; intros pos; cbn; auto.
Qed.

(** The regular expression of the schema finds a match exactly in the
    strings of six colon-separated octets. *)
Lemma found_mac_regex (s : string) : Regex.found mac_regex s = six_octets s.
Proof.
  unfold Regex.found, Regex.search, six_octets.
  set (l := list_ascii_of_string s).
  assert (H : Regex.matches_at mac_regex (0, l) = octets 5 l).
  { rewrite <- (matches_octets 5 0 l).
    unfold Regex.matches_at, mac_regex. cbn [Regex.run fst flat_map].
    rewrite app_nil_r. reflexivity. }
  destruct l as [|a l']; cbn [Regex.search_from]; rewrite H.
  - reflexivity.
  - destruct (octets 5 (a :: l')); [reflexivity|].
    now rewrite mac_regex_not_later.
Qed.

(** ** Validation against the schema *)

#[local] Arguments Regex.found : simpl never.

Lemma field_errors_app k es1 es2 :
  Yup.field_errors k (es1 ++ es2)%list
  = (Yup.field_errors k es1 ++ Yup.field_errors k es2)%list.
Proof. unfold Yup.field_errors. apply flat_map_app. Qed.

Lemma field_errors_under_key k k' es :
  Yup.field_errors k (Yup.under (Yup.Key k') es) = if k' =? k then es else [].
Proof.
  unfold Yup.field_errors, Yup.under.
  induction es as [|[p m] es IH]; cbn [map flat_map fst snd].
  - now destruct (k' =? k).
  - rewrite IH. destruct (k' =? k); reflexivity.
Qed.

(** The errors under a field of a shape are those of the field's own
    schema, checked with the object as parent. *)
Lemma field_errors_object k parent fs o :
  Yup.field_errors k (Yup.check parent (Yup.SObject fs) (Yup.Object o)) =
  flat_map
    (fun ks => if fst ks =? k
               then Yup.check o (snd ks) (Yup.get (fst ks) o) else [])
    fs.
Proof.
  cbn [Yup.check].
  induction fs as [|[k' s] fs IH]; cbn [flat_map fst snd]; [reflexivity|].
  now rewrite field_errors_app, field_errors_under_key, IH.
Qed.

(** No decimal numeral spells "ipmi", so the cast of a power type is
    "ipmi" only when the power type is that string. *)
Lemma cast_string_ipmi (v : JS.value) :
  JS.strict_eq (Yup.cast_string v) (JS.Str "ipmi") = true <-> v = JS.Str "ipmi".
Proof.
  split.
  - destruct v as [|[]|n|s]; cbn; try discriminate.
    + destruct (Nat.to_uint n); cbn; discriminate.
    + intros H. apply String.eqb_eq in H. now subst.
  - intros ->. reflexivity.
Qed.

Lemma cast_string_not_ipmi (v : JS.value) :
  JS.strict_eq (Yup.cast_string v) (JS.Str "ipmi") = false <-> v <> JS.Str "ipmi".
Proof.
  rewrite <- cast_string_ipmi.
  destruct (JS.strict_eq (Yup.cast_string v) (JS.Str "ipmi")); split;
    congruence.
Qed.

(** The tests the [pxe_mac] field is put to: the pattern always, the
    presence test when the [when] condition holds. *)
Lemma pxe_mac_check ps v :
  Yup.field_errors "pxe_mac"
    (Yup.validate (generateMachineSchema ps) (Values.to_data v)) =
  Yup.check
    [("power_type", Yup.Scalar (Yup.cast_string (Values.power_type v)))]
    (Yup.SString
       (Yup.StringSchema
          [Yup.Matches mac_regex "Invalid MAC address"]
          [Yup.When "power_type"
             (fun power_type => negb (Yup.strict_eq power_type (JS.Str "ipmi")))
             (Yup.StringSchema
                [Yup.Required "At least one MAC address required"] [])]))
    (Yup.Scalar (Yup.cast_string (Values.pxe_mac v))).
Proof.
  unfold Yup.validate, generateMachineSchema, Values.to_data, Yup.object_shape.
  cbn [Yup.cast].
  rewrite field_errors_object.
  match goal with |- context [Yup.check ?o _ _] => set (parent := o) end.
  assert (Hmac : Yup.get "pxe_mac" parent
                 = Yup.Scalar (Yup.cast_string (Values.pxe_mac v)))
    by reflexivity.
  assert (Htype : Yup.get "power_type" parent
                  = Yup.Scalar (Yup.cast_string (Values.power_type v)))
    by reflexivity.
  clearbody parent.
  cbn [flat_map fst snd String.eqb Ascii.eqb Bool.eqb app].
  rewrite Hmac, app_nil_r.
  unfold Yup.when, Yup.matches, Yup.required, Yup.string_.
  cbn [Yup.check Yup.resolve fold_left Yup.add_test Yup.exclusive app].
  rewrite Htype.
  cbn [Yup.get String.eqb Ascii.eqb Bool.eqb].
  reflexivity.
Qed.

Lemma pxe_mac_absent ps v :
  Values.pxe_mac v = JS.Undefined ->
  Yup.field_errors "pxe_mac"
    (Yup.validate (generateMachineSchema ps) (Values.to_data v)) =
  if JS.strict_eq (Yup.cast_string (Values.power_type v)) (JS.Str "ipmi")
  then []
  else [([], "At least one MAC address required")].
Proof.
  intros H. rewrite pxe_mac_check, H.
  cbn [Yup.cast_string Yup.check Yup.resolve fold_left Yup.get
       String.eqb Ascii.eqb Bool.eqb Yup.strict_eq].
  destruct (JS.strict_eq (Yup.cast_string (Values.power_type v)) (JS.Str "ipmi"));
    reflexivity.
Qed.

Lemma pxe_mac_string ps v s :
  Values.pxe_mac v = JS.Str s ->
  Yup.field_errors "pxe_mac"
    (Yup.validate (generateMachineSchema ps) (Values.to_data v)) =
  ((if six_octets s then [] else [([], "Invalid MAC address")]) ++
   (if JS.strict_eq (Yup.cast_string (Values.power_type v)) (JS.Str "ipmi")
    then []
    else if s =? "" then [([], "At least one MAC address required")] else []))%list.
Proof.
  intros H. rewrite pxe_mac_check, H, <- found_mac_regex.
  cbn [Yup.cast_string JS.to_string Yup.check Yup.resolve fold_left Yup.get
       String.eqb Ascii.eqb Bool.eqb Yup.strict_eq].
  destruct (JS.strict_eq (Yup.cast_string (Values.power_type v)) (JS.Str "ipmi"));
    cbn; destruct (Regex.found mac_regex s); destruct (s =? ""); reflexivity.
Qed.

(** The empty string is a value, not an absence: the pattern is tried
    on it, and fails, under "ipmi" as under any power type. *)
Remark pxe_mac_empty_string ps v :
  Values.pxe_mac v = JS.Str "" ->
  In ([], "Invalid MAC address")
     (Yup.field_errors "pxe_mac"
        (Yup.validate (generateMachineSchema ps) (Values.to_data v))).
Proof.
  intros H. rewrite (pxe_mac_string ps v H). now left.
Qed.

(** C2: for a primary address that is a string or absent, the presence
    test of the [pxe_mac] rule built by [generateMachineSchema] fails
    exactly when the address is absent or empty and the selected power
    type is not ["ipmi"]; an absent address validates exactly when the
    power type is ["ipmi"]. *)
Theorem pxe_mac_required_unless_ipmi ps v :
  Values.pxe_mac v = JS.Undefined \/ (exists s, Values.pxe_mac v = JS.Str s) ->
  let es :=
    Yup.field_errors "pxe_mac"
      (Yup.validate (generateMachineSchema ps) (Values.to_data v)) in
  (In ([], "At least one MAC address required") es <->
     (Values.pxe_mac v = JS.Undefined \/ Values.pxe_mac v = JS.Str "")
     /\ Values.power_type v <> JS.Str "ipmi") /\
  (Values.pxe_mac v = JS.Undefined ->
     (es = [] <-> Values.power_type v = JS.Str "ipmi")).
Proof.
  intros H es. subst es.
  destruct (JS.strict_eq (Yup.cast_string (Values.power_type v)) (JS.Str "ipmi"))
    eqn:Hipmi;
    [pose proof (proj1 (cast_string_ipmi _) Hipmi) as Htype
    |pose proof (proj1 (cast_string_not_ipmi _) Hipmi) as Htype].
  - destruct H as [H|[s H]].
    + rewrite (pxe_mac_absent ps v H), Hipmi. cbn [In]. intuition congruence.
    + rewrite (pxe_mac_string ps v H), Hipmi, app_nil_r, H.
      destruct (six_octets s); cbn [In];
        intuition (try congruence; try discriminate).
  - destruct H as [H|[s H]].
    + rewrite (pxe_mac_absent ps v H), Hipmi. cbn [In].
      intuition (try congruence; try discriminate).
    + rewrite (pxe_mac_string ps v H), Hipmi, H.
      destruct (String.eqb_spec s "") as [->|Hs];
        destruct (six_octets _); cbn [app In];
        intuition (try congruence; try discriminate).
Qed.

(** C10: a primary address that is given is held to the six-octet
    pattern whatever the power type; when it is not empty, it validates
    exactly when it has that shape. *)
Theorem pxe_mac_pattern_any_power_type ps v s :
  Values.pxe_mac v = JS.Str s ->
  let es :=
    Yup.field_errors "pxe_mac"
      (Yup.validate (generateMachineSchema ps) (Values.to_data v)) in
  (In ([], "Invalid MAC address") es <-> six_octets s = false) /\
  (s <> "" -> (es = [] <-> six_octets s = true)).
Proof.
  intros H es. subst es. rewrite (pxe_mac_string ps v H).
  split.
  - destruct (six_octets s), (JS.strict_eq _ _), (s =? "");
      cbn [app In]; intuition (try congruence; try discriminate).
  - intros Hs. apply String.eqb_neq in Hs. rewrite Hs.
    destruct (six_octets s), (JS.strict_eq _ _); cbn [app];
      split; intros; try reflexivity; try discriminate.
Qed.

(** The secondary addresses: every entry is checked on its own, under
    its index. *)
Lemma extra_macs_check ps v :
  Yup.field_errors "extra_macs"
    (Yup.validate (generateMachineSchema ps) (Values.to_data v)) =
  flat_map
    (fun id =>
       Yup.under (Yup.Index (fst id))
         (Yup.check []
            (Yup.SString
               (Yup.StringSchema [Yup.Matches mac_regex "Invalid MAC address"] []))
            (Yup.Scalar (Yup.cast_string (snd id)))))
    (Yup.indexed (Values.extra_macs v)).
Proof.
  unfold Yup.validate, generateMachineSchema, Values.to_data, Yup.object_shape.
  cbn [Yup.cast].
  rewrite field_errors_object.
  match goal with |- context [Yup.check ?o _ _] => set (parent := o) end.
  assert (Hmacs : Yup.get "extra_macs" parent
                  = Yup.Array
                      (map (fun m => Yup.Scalar (Yup.cast_string m))
                           (Values.extra_macs v))).
  { subst parent.
    cbn [map fst snd Yup.get String.eqb Ascii.eqb Bool.eqb Yup.array_of Yup.cast].
    now rewrite map_map. }
  clearbody parent.
  cbn [flat_map fst snd String.eqb Ascii.eqb Bool.eqb app].
  rewrite Hmacs, app_nil_r.
  unfold Yup.array_of, Yup.matches, Yup.string_.
  cbn [Yup.check Yup.add_test Yup.exclusive app].
  unfold Yup.indexed. rewrite length_map. clear Hmacs.
  generalize 0 as n.
  induction (Values.extra_macs v) as [|m ms IH]; intros n;
    cbn [map List.length seq combine flat_map fst snd]; [reflexivity|].
  rewrite IH. reflexivity.
Qed.

Lemma in_indexed_from {A} (xs : list A) : forall n i x,
  In (i, x) (combine (seq n (List.length xs)) xs)
  <-> n <= i /\ nth_error xs (i - n) = Some x.
Proof.
  induction xs as [|y ys IH]; intros n i x; cbn [List.length seq combine In].
  - split; [tauto|]. intros [_ H]. now destruct (i - n).
  - rewrite IH. split.
    + intros [Heq|[Hle Hnth]].
      * inversion Heq; subst. rewrite Nat.sub_diag. now split.
      * split; [lia|]. replace (i - n) with (S (i - S n)) by lia. exact Hnth.
    + intros [Hle Hnth]. destruct (Nat.eq_dec n i) as [->|Hne].
      * rewrite Nat.sub_diag in Hnth. cbn in Hnth. left. congruence.
      * right. split; [lia|].
        replace (i - n) with (S (i - S n)) in Hnth by lia. exact Hnth.
Qed.

Lemma in_indexed {A} (xs : list A) i x :
  In (i, x) (Yup.indexed xs) <-> nth_error xs i = Some x.
Proof.
  unfold Yup.indexed. rewrite in_indexed_from, Nat.sub_0_r.
  split; [tauto|]. split; [lia|assumption].
Qed.

(** C5: the errors under [extra_macs] are one "Invalid MAC address" per
    entry that lacks the six-octet shape, at that entry's index, and
    nothing else: an entry is in error exactly when it is itself
    malformed, whatever the other entries are. *)
Theorem extra_macs_checked_entrywise ps v ss :
  Values.extra_macs v = map JS.Str ss ->
  let es :=
    Yup.field_errors "extra_macs"
      (Yup.validate (generateMachineSchema ps) (Values.to_data v)) in
  es = flat_map
         (fun entry =>
            if six_octets (snd entry) then []
            else [([Yup.Index (fst entry)], "Invalid MAC address")])
         (Yup.indexed ss)
  /\ forall i,
       In ([Yup.Index i], "Invalid MAC address") es
       <-> exists s, nth_error ss i = Some s /\ six_octets s = false.
Proof.
  intros H es.
  assert (Hes : es = flat_map
         (fun entry =>
            if six_octets (snd entry) then []
            else [([Yup.Index (fst entry)], "Invalid MAC address")])
         (Yup.indexed ss)).
  { subst es. rewrite extra_macs_check, H. unfold Yup.indexed.
    rewrite length_map. clear H. generalize 0 as n.
    induction ss as [|s ss IH]; intros n;
      cbn [map List.length seq combine flat_map fst snd]; [reflexivity|].
    rewrite IH. f_equal.
    cbn [Yup.cast_string JS.to_string Yup.check Yup.resolve fold_left
         Yup.failures flat_map Yup.passes].
    rewrite found_mac_regex. destruct (six_octets s); reflexivity. }
  split; [exact Hes|].
  intros i. rewrite Hes, in_flat_map. split.
  - intros [[j s] [Hin Herr]]. cbn [fst snd] in Herr.
    destruct (six_octets s) eqn:Hs; [destruct Herr|].
    destruct Herr as [Heq|[]]. inversion Heq; subst.
    exists s. split; [now apply in_indexed|assumption].
  - intros [s [Hnth Hs]]. exists (i, s). split; [now apply in_indexed|].
    cbn [fst snd]. rewrite Hs. now left.
Qed.

(** ** The error banner *)

Lemma append_assoc (a b c : string) : (a ++ b) ++ c = a ++ (b ++ c).
Proof. induction a as [|x a IH]; cbn; [reflexivity|now rewrite IH]. Qed.

Lemma append_empty_r (a : string) : a ++ "" = a.
Proof. induction a as [|x a IH]; cbn; [reflexivity|now rewrite IH]. Qed.

Lemma object_get_in o : NoDup (object_keys o) ->
  forall key m, In (key, m) o -> object_get o key = JS.Str m.
Proof.
  induction o as [|[k x] o IH]; intros Hnd key m Hin; [destruct Hin|].
  cbn [object_keys map fst] in Hnd. inversion Hnd as [|? ? Hk Hnd']; subst.
  cbn [object_get]. destruct Hin as [Heq|Hin].
  - inversion Heq; subst. now rewrite String.eqb_refl.
  - destruct (String.eqb_spec k key) as [->|Hne].
    + exfalso. apply Hk. unfold object_keys.
      change key with (fst (key, m)). now apply in_map.
    + now apply IH.
Qed.

Lemma errors_fold o : forall keys acc,
  (forall kv, In kv keys -> object_get o (fst kv) = JS.Str (snd kv)) ->
  fold_left
    (fun errors key => errors ++ (JS.to_string (object_get o key) ++ " "))
    (object_keys keys) acc
  = acc ++ fold_right (fun kv rest => snd kv ++ " " ++ rest) "" keys.
Proof.
  induction keys as [|[k m] keys IH]; intros acc Hget;
    cbn [object_keys map fold_left fold_right fst snd].
  - now rewrite append_empty_r.
  - change (map fst keys) with (object_keys keys).
    rewrite IH by (intros kv Hin; apply Hget; now right).
    pose proof (Hget (k, m) (or_introl eq_refl)) as Hk.
    cbn [fst snd] in Hk. rewrite Hk.
    cbn [JS.to_string]. now rewrite !append_assoc.
Qed.

(** C3: a failure payload that is a string is displayed verbatim; one
    that is an object of field name to message is displayed as its
    messages in the order of its keys, each followed by a space. *)
Theorem errors_normalised (o : list (string * string)) :
  NoDup (object_keys o) ->
  errors (ErrorObject o)
  = fold_right (fun kv rest => snd kv ++ " " ++ rest) "" o
  /\ forall s, errors (ErrorString s) = s.
Proof.
  intros Hnd. split.
  - cbn [errors]. rewrite errors_fold; [reflexivity|].
    intros [k m] Hin. now apply object_get_in.
  - intros s. cbn [errors JS.truthy].
    destruct (String.eqb_spec s "") as [->|]; reflexivity.
Qed.

(** ** The readiness gate *)

(** C4: [allLoaded] holds exactly when each of the seven collections
    reports loaded, and the component renders the spinner, and nothing
    of the form, exactly while it does not hold. *)
Theorem allLoaded_gates_form store st :
  (allLoaded store = true <->
     Store.architecturesLoaded store = true /\
     Store.defaultMinHweKernelLoaded store = true /\
     Store.domainsLoaded store = true /\
     Store.hweKernelsLoaded store = true /\
     Store.powerTypesLoaded store = true /\
     Store.resourcePoolsLoaded store = true /\
     Store.zonesLoaded store = true) /\
  (render store st = Spinner "Loading" <-> allLoaded store = false) /\
  ((exists form, render store st = FormCard false "Add machine" form)
   <-> allLoaded store = true).
Proof.
  split; [|split].
  - unfold allLoaded. rewrite !andb_true_iff. tauto.
  - unfold render. destruct (allLoaded store); cbn; split;
      congruence || discriminate.
  - unfold render. destruct (allLoaded store); cbn; split;
      try congruence; try discriminate.
    + intros _. eexists. reflexivity.
    + intros [form H]. discriminate.
Qed.

(** ** Initial values *)

Lemma first_name_spec (xs : list Item) :
  first_name xs =
  match xs with
  | [] => JS.Str ""
  | x :: _ => JS.Str (name x)
  end.
Proof.
  destruct xs as [|x xs]; [reflexivity|].
  unfold first_name, JS.or_, JS.and_, JS.index.
  cbn [List.length JS.truthy Nat.eqb negb nth_error].
  destruct (name x =? "") eqn:Hname; cbn [negb]; [|reflexivity].
  apply String.eqb_eq in Hname. now rewrite Hname.
Qed.

(** C6: each selector field starts at the first item of its collection
    (the item itself for architectures, its name for domains, resource
    pools and zones) and at the empty string when the collection is
    empty. *)
Theorem initialValues_first_item store :
  Values.architecture (initialValues store) =
    match Store.architectures store with
    | [] => JS.Str ""
    | first :: _ => JS.Str first
    end
  /\ Values.domain (initialValues store) =
    match Store.domains store with
    | [] => JS.Str ""
    | first :: _ => JS.Str (name first)
    end
  /\ Values.pool (initialValues store) =
    match Store.resourcePools store with
    | [] => JS.Str ""
    | first :: _ => JS.Str (name first)
    end
  /\ Values.zone (initialValues store) =
    match Store.zones store with
    | [] => JS.Str ""
    | first :: _ => JS.Str (name first)
    end.
Proof.
  cbn [initialValues Values.architecture Values.domain Values.pool Values.zone].
  rewrite !first_name_spec. repeat split.
  destruct (Store.architectures store) as [|a l]; [reflexivity|].
  unfold JS.or_, JS.and_, JS.index.
  cbn [List.length JS.truthy Nat.eqb negb nth_error].
  destruct (a =? "") eqn:Ha; cbn [negb]; [|reflexivity].
  apply String.eqb_eq in Ha. now rewrite Ha.
Qed.
(** ** Submission *)

Lemma strict_eq_str a v : JS.strict_eq (JS.Str a) v = true <-> v = JS.Str a.
Proof.
  destruct v as [| |n|s]; cbn; split; try discriminate.
  - intros H. apply String.eqb_eq in H. now subst.
  - intros H. inversion H. apply String.eqb_refl.
Qed.

Lemma find_by_name_none items v :
  find_by_name items v = None
  <-> ~ In v (map (fun item => JS.Str (name item)) items).
Proof.
  unfold find_by_name. split.
  - intros Hnone Hin. apply in_map_iff in Hin. destruct Hin as [item [Hv Hin]].
    pose proof (find_none _ _ Hnone item Hin) as Hfalse. cbv beta in Hfalse.
    assert (Htrue : JS.strict_eq (JS.Str (name item)) v = true)
      by now apply strict_eq_str.
    congruence.
  - intros Hnot.
    destruct (find (fun item => JS.strict_eq (JS.Str (name item)) v) items)
      as [item|] eqn:Hfind; [|reflexivity].
    apply find_some in Hfind. destruct Hfind as [Hin Heq].
    apply strict_eq_str in Heq. exfalso. apply Hnot. subst v.
    now apply (in_map (fun item => JS.Str (name item))).
Qed.

Lemma find_by_name_some items v item :
  find_by_name items v = Some item -> In item items /\ v = JS.Str (name item).
Proof.
  unfold find_by_name. intros H. apply find_some in H.
  destruct H as [Hin Heq]. now apply strict_eq_str in Heq.
Qed.

(** C1, as the code has it: [onSubmit] dispatches one creation command
    for every value set.  A domain, resource pool or zone name that is
    not in its loaded collection leaves that entry of the command
    undefined; a name that is there is replaced by a record of that
    name. *)
Theorem onSubmit_always_dispatches store st values :
  exists params,
    snd (onSubmit store st values) = [MachineCreate params] /\
    (Params.domain params = None <->
       ~ In (Values.domain values)
            (map (fun item => JS.Str (name item)) (Store.domains store))) /\
    (Params.pool params = None <->
       ~ In (Values.pool values)
            (map (fun item => JS.Str (name item)) (Store.resourcePools store))) /\
    (Params.zone params = None <->
       ~ In (Values.zone values)
            (map (fun item => JS.Str (name item)) (Store.zones store))) /\
    (forall item, Params.domain params = Some item ->
       In item (Store.domains store) /\ Values.domain values = JS.Str (name item)) /\
    (forall item, Params.pool params = Some item ->
       In item (Store.resourcePools store)
       /\ Values.pool values = JS.Str (name item)) /\
    (forall item, Params.zone params = Some item ->
       In item (Store.zones store) /\ Values.zone values = JS.Str (name item)).
Proof.
  eexists. split; [reflexivity|].
  cbn [Params.domain Params.pool Params.zone].
  repeat split;
    try (apply find_by_name_none; assumption);
    try (intros H; apply find_by_name_none in H; assumption);
    try (apply find_by_name_some in H; tauto).
Qed.

(** C8: the secondary addresses of the creation command are the truthy
    entries of the submitted list, in their order; of a list of strings,
    the non-empty ones. *)
Theorem extra_macs_stripped store st values :
  exists params,
    snd (onSubmit store st values) = [MachineCreate params] /\
    Params.extra_macs params = filter JS.truthy (Values.extra_macs values) /\
    (forall m, In m (Params.extra_macs params)
               <-> In m (Values.extra_macs values) /\ JS.truthy m = true) /\
    (forall ss, Values.extra_macs values = map JS.Str ss ->
       Params.extra_macs params
       = map JS.Str (filter (fun s => negb (s =? "")) ss)).
Proof.
  eexists. split; [reflexivity|]. cbn [Params.extra_macs].
  split; [reflexivity|]. split.
  - intros m. apply filter_In.
  - intros ss ->. induction ss as [|s ss IH]; [reflexivity|].
    cbn [map filter JS.truthy]. rewrite IH.
    destruct (negb (s =? "")); reflexivity.
Qed.

Lemma savingMachine_after_step store st ev :
  State.savingMachine (step store st ev) =
  match ev with
  | Submit values => JS.or_ (Values.hostname values) (JS.Str "Machine")
  | Rendered =>
      if Store.machineSaved store then JS.Bool false else State.savingMachine st
  | _ => State.savingMachine st
  end.
Proof.
  destruct ev; try reflexivity.
  unfold step, effects, useAddMessage, reset_effect.
  destruct (Store.machineSaved store), (State.resetOnSave st); reflexivity.
Qed.


(** ** Save, and save and add another *)

Lemma resetOnSave_after_step store st ev :
  State.resetOnSave (step store st ev) =
  match ev with
  | SecondarySubmit => true
  | Rendered => State.resetOnSave st && negb (Store.machineSaved store)
  | _ => State.resetOnSave st
  end.
Proof.
  destruct ev; try reflexivity.
  unfold step, effects, useAddMessage, reset_effect.
  destruct (Store.machineSaved store), (State.resetOnSave st) eqn:Hflag;
    cbn [andb negb fst State.resetOnSave State.setSavingMachine
         State.setResetOnSave];
    rewrite ?Hflag; reflexivity.
Qed.





(** * Further properties *)

(** ** The other rules of the schema *)

Lemma cast_string_shape (x : JS.value) :
  Yup.cast_string x = JS.Undefined \/ exists s, Yup.cast_string x = JS.Str s.
Proof. destruct x; cbn; eauto. Qed.

Lemma check_required parent msg x :
  Yup.check parent
    (Yup.SString (Yup.string_ |> Yup.required msg))
    (Yup.Scalar (Yup.cast_string x))
  = if filled x then [] else [([], msg)].
Proof.
  unfold filled.
  destruct (cast_string_shape x) as [H|[s H]]; rewrite H; cbn; [reflexivity|].
  destruct (s =? ""); reflexivity.
Qed.

Lemma check_plain_string parent x :
  Yup.check parent (Yup.SString Yup.string_) (Yup.Scalar (Yup.cast_string x)) = [].
Proof.
  destruct (cast_string_shape x) as [H|[s H]]; rewrite H; reflexivity.
Qed.

(** Reading one field's errors off the schema: the shape is unfolded,
    the field selected by its key, and its value looked up in the cast
    object. *)
Ltac select_field key value :=
  unfold Yup.validate, generateMachineSchema, Values.to_data, Yup.object_shape;
  cbn [Yup.cast];
  rewrite field_errors_object;
  match goal with
  | |- context [Yup.check ?o _ _] =>
      let parent := fresh "parent" in
      let Hget := fresh "Hget" in
      set (parent := o);
      assert (Hget : Yup.get key parent = value) by reflexivity;
      clearbody parent;
      cbn [flat_map fst snd String.eqb Ascii.eqb Bool.eqb app];
      rewrite Hget, ?app_nil_r
  end.

Lemma architecture_errors ps v :
  Yup.field_errors "architecture"
    (Yup.validate (generateMachineSchema ps) (Values.to_data v))
  = if filled (Values.architecture v) then []
    else [([], "Architecture required")].
Proof.
  select_field "architecture"
    (Yup.Scalar (Yup.cast_string (Values.architecture v))).
  apply check_required.
Qed.

Lemma domain_errors ps v :
  Yup.field_errors "domain"
    (Yup.validate (generateMachineSchema ps) (Values.to_data v))
  = if filled (Values.domain v) then [] else [([], "Domain required")].
Proof.
  select_field "domain" (Yup.Scalar (Yup.cast_string (Values.domain v))).
  apply check_required.
Qed.

Lemma pool_errors ps v :
  Yup.field_errors "pool"
    (Yup.validate (generateMachineSchema ps) (Values.to_data v))
  = if filled (Values.pool v) then [] else [([], "Resource pool required")].
Proof.
  select_field "pool" (Yup.Scalar (Yup.cast_string (Values.pool v))).
  apply check_required.
Qed.

Lemma power_type_errors ps v :
  Yup.field_errors "power_type"
    (Yup.validate (generateMachineSchema ps) (Values.to_data v))
  = if filled (Values.power_type v) then [] else [([], "Power type required")].
Proof.
  select_field "power_type"
    (Yup.Scalar (Yup.cast_string (Values.power_type v))).
  apply check_required.
Qed.

Lemma zone_errors ps v :
  Yup.field_errors "zone"
    (Yup.validate (generateMachineSchema ps) (Values.to_data v))
  = if filled (Values.zone v) then [] else [([], "Zone required")].
Proof.
  select_field "zone" (Yup.Scalar (Yup.cast_string (Values.zone v))).
  apply check_required.
Qed.

Lemma string_of_uint_empty d : NilEmpty.string_of_uint d = "" -> d = Decimal.Nil.
Proof. destruct d; cbn; congruence. Qed.

Lemma to_string_num_not_empty n : JS.to_string (JS.Num n) <> "".
Proof.
  cbn [JS.to_string]. intros H. apply string_of_uint_empty in H.
  pose proof (DecimalNat.Unsigned.to_of (Nat.to_uint n)) as Hnorm.
  rewrite DecimalNat.Unsigned.of_to, H in Hnorm.
  symmetry in Hnorm. now apply DecimalFacts.unorm_nonnil in Hnorm.
Qed.

(** What [filled] comes to: every value but [undefined] and the empty
    string is; a number or a boolean is cast to a text that is not
    empty. *)
Lemma filled_false (x : JS.value) :
  filled x = false <-> x = JS.Undefined \/ x = JS.Str "".
Proof.
  unfold filled. destruct x as [|[]|n|s]; cbn [Yup.cast_string].
  - split; [now left|reflexivity].
  - cbn. split; [discriminate|intros [H|H]; discriminate H].
  - cbn. split; [discriminate|intros [H|H]; discriminate H].
  - destruct (String.eqb_spec (JS.to_string (JS.Num n)) "") as [He|_].
    + now apply to_string_num_not_empty in He.
    + cbn [negb]. split; [discriminate|intros [H|H]; discriminate H].
  - cbn [JS.to_string]. destruct (String.eqb_spec s "") as [->|Hs]; cbn [negb].
    + split; [now right|reflexivity].
    + split; [discriminate|]. intros [H|H]; [discriminate H|].
      inversion H. contradiction.
Qed.

(** X1: each of the five selectors is in error, with its own message
    and nothing else, exactly when its value is [undefined] or the
    empty string; every other value, a number or a boolean included,
    passes, the schema casting it to a text that is not empty. *)
Theorem required_selectors ps v :
  let es := Yup.validate (generateMachineSchema ps) (Values.to_data v) in
  let absent := fun x : JS.value => x = JS.Undefined \/ x = JS.Str "" in
  (Yup.field_errors "architecture" es = [([], "Architecture required")]
   <-> absent (Values.architecture v)) /\
  (Yup.field_errors "architecture" es = []
   <-> ~ absent (Values.architecture v)) /\
  (Yup.field_errors "domain" es = [([], "Domain required")]
   <-> absent (Values.domain v)) /\
  (Yup.field_errors "domain" es = [] <-> ~ absent (Values.domain v)) /\
  (Yup.field_errors "pool" es = [([], "Resource pool required")]
   <-> absent (Values.pool v)) /\
  (Yup.field_errors "pool" es = [] <-> ~ absent (Values.pool v)) /\
  (Yup.field_errors "power_type" es = [([], "Power type required")]
   <-> absent (Values.power_type v)) /\
  (Yup.field_errors "power_type" es = [] <-> ~ absent (Values.power_type v)) /\
  (Yup.field_errors "zone" es = [([], "Zone required")]
   <-> absent (Values.zone v)) /\
  (Yup.field_errors "zone" es = [] <-> ~ absent (Values.zone v)).
Proof.
  cbv zeta.
  rewrite architecture_errors, domain_errors, pool_errors, power_type_errors,
    zone_errors.
  assert (Hcase : forall (x : JS.value) (msg : string),
    ((if filled x then [] else [(@nil Yup.segment, msg)]) = [([], msg)]
     <-> x = JS.Undefined \/ x = JS.Str "") /\
    ((if filled x then [] else [(@nil Yup.segment, msg)]) = []
     <-> ~ (x = JS.Undefined \/ x = JS.Str ""))).
  { intros x msg. rewrite <- filled_false.
    destruct (filled x); repeat split; intros;
      try congruence; try discriminate; try (exfalso; auto; fail). }
  repeat split; try apply Hcase.
Qed.

Lemma hostname_errors ps v :
  Yup.field_errors "hostname"
    (Yup.validate (generateMachineSchema ps) (Values.to_data v)) = [].
Proof.
  select_field "hostname" (Yup.Scalar (Yup.cast_string (Values.hostname v))).
  apply check_plain_string.
Qed.

Lemma min_hwe_kernel_errors ps v :
  Yup.field_errors "min_hwe_kernel"
    (Yup.validate (generateMachineSchema ps) (Values.to_data v)) = [].
Proof.
  select_field "min_hwe_kernel"
    (Yup.Scalar (Yup.cast_string (Values.min_hwe_kernel v))).
  apply check_plain_string.
Qed.

(** X2: the hostname and the minimum kernel are never in error,
    whatever they hold: the schema puts no test on them. *)
Theorem hostname_and_kernel_unconstrained ps v :
  let es := Yup.validate (generateMachineSchema ps) (Values.to_data v) in
  Yup.field_errors "hostname" es = [] /\
  Yup.field_errors "min_hwe_kernel" es = [].
Proof.
  cbv zeta. split; [apply hostname_errors|apply min_hwe_kernel_errors].
Qed.

Lemma nested_field_errors ps v :
  Yup.field_errors "power_parameters"
    (Yup.validate (generateMachineSchema ps) (Values.to_data v))
  = Yup.validate (Yup.SObject ps)
      (Yup.Object (map (fun kv => (fst kv, Yup.Scalar (snd kv)))
                       (Values.power_parameters v))).
Proof.
  select_field "power_parameters"
    (Yup.cast (Yup.SObject ps)
       (Yup.Object (map (fun kv => (fst kv, Yup.Scalar (snd kv)))
                        (Values.power_parameters v)))).
  reflexivity.
Qed.

(** X3: the errors under [power_parameters] are those the power
    type's own schema finds in the power parameters, validated on
    their own: two value sets with the same power parameters have the
    same errors there, whatever their other fields. *)
Theorem power_parameters_validated_alone ps v :
  Yup.field_errors "power_parameters"
    (Yup.validate (generateMachineSchema ps) (Values.to_data v))
  = Yup.validate (Yup.SObject ps)
      (Yup.Object (map (fun kv => (fst kv, Yup.Scalar (snd kv)))
                       (Values.power_parameters v)))
  /\ forall v',
       Values.power_parameters v' = Values.power_parameters v ->
       Yup.field_errors "power_parameters"
         (Yup.validate (generateMachineSchema ps) (Values.to_data v'))
       = Yup.field_errors "power_parameters"
           (Yup.validate (generateMachineSchema ps) (Values.to_data v)).
Proof.
  split; [apply nested_field_errors|].
  intros v' H. rewrite !nested_field_errors. now rewrite H.
Qed.

Lemma entry_check m :
  Yup.check []
    (Yup.SString
       (Yup.StringSchema [Yup.Matches mac_regex "Invalid MAC address"] []))
    (Yup.Scalar (Yup.cast_string m))
  = if mac_or_absent m then [] else [([], "Invalid MAC address")].
Proof.
  unfold mac_or_absent.
  destruct (cast_string_shape m) as [H|[s H]]; rewrite H; [reflexivity|].
  cbn [Yup.check Yup.resolve fold_left Yup.failures flat_map Yup.passes
       Yup.message Yup.here map app].
  rewrite found_mac_regex. destruct (six_octets s); reflexivity.
Qed.

Lemma extra_macs_errors ps v :
  Yup.field_errors "extra_macs"
    (Yup.validate (generateMachineSchema ps) (Values.to_data v))
  = flat_map
      (fun entry =>
         if mac_or_absent (snd entry) then []
         else [([Yup.Index (fst entry)], "Invalid MAC address")])
      (Yup.indexed (Values.extra_macs v)).
Proof.
  rewrite extra_macs_check. apply flat_map_ext. intros [i m].
  cbn [fst snd]. rewrite entry_check.
  destruct (mac_or_absent m); reflexivity.
Qed.

(** X4: of secondary addresses of any kind, the entries in error are
    those that are given and are not six octets; an entry that is
    [undefined] is never one. *)
Theorem extra_macs_absent_entries_pass ps v :
  let es :=
    Yup.field_errors "extra_macs"
      (Yup.validate (generateMachineSchema ps) (Values.to_data v)) in
  (forall i,
      In ([Yup.Index i], "Invalid MAC address") es
      <-> exists m, nth_error (Values.extra_macs v) i = Some m
                    /\ mac_or_absent m = false) /\
  (forall i p msg,
      nth_error (Values.extra_macs v) i = Some JS.Undefined ->
      ~ In (Yup.Index i :: p, msg) es).
Proof.
  cbv zeta. rewrite extra_macs_errors. split.
  - intros i. rewrite in_flat_map. split.
    + intros [[j m] [Hin Herr]]. cbn [fst snd] in Herr.
      destruct (mac_or_absent m) eqn:Hm; [destruct Herr|].
      destruct Herr as [Heq|[]]. inversion Heq; subst.
      exists m. split; [now apply in_indexed|assumption].
    + intros [m [Hnth Hm]]. exists (i, m). split; [now apply in_indexed|].
      cbn [fst snd]. rewrite Hm. now left.
  - intros i p msg Hnth Hin. apply in_flat_map in Hin.
    destruct Hin as [[j m] [Hin Herr]]. cbn [fst snd] in Herr.
    destruct (mac_or_absent m) eqn:Hm; [destruct Herr|].
    destruct Herr as [Heq|[]]. inversion Heq; subst.
    apply in_indexed in Hin. rewrite Hnth in Hin.
    inversion Hin; subst. discriminate Hm.
Qed.

Lemma flat_map_nil {A B} (f : A -> list B) l :
  flat_map f l = [] <-> forall x, In x l -> f x = [].
Proof.
  induction l as [|a l IH]; cbn [flat_map In]; [tauto|].
  split.
  - intros H. apply app_eq_nil in H. destruct H as [Ha Hl].
    intros x [<-|Hin]; [assumption|]. now apply IH.
  - intros H. rewrite (H a) by now left. cbn [app].
    apply IH. intros x Hin. apply H. now right.
Qed.

Lemma extra_macs_valid macs : forall n,
  flat_map
    (fun entry : nat * JS.value =>
       if mac_or_absent (snd entry) then []
       else [([Yup.Index (fst entry)], "Invalid MAC address")])
    (combine (seq n (List.length macs)) macs) = []
  <-> forallb mac_or_absent macs = true.
Proof.
  induction macs as [|m macs IH]; intros n;
    cbn [List.length seq combine flat_map forallb fst snd]; [tauto|].
  destruct (mac_or_absent m); cbn [app andb].
  - apply IH.
  - split; discriminate.
Qed.

(** A shape finds no error exactly when none of its fields does. *)
Lemma object_valid parent fs o :
  Yup.check parent (Yup.SObject fs) (Yup.Object o) = []
  <-> forall k, In k (map fst fs) ->
        Yup.field_errors k (Yup.check parent (Yup.SObject fs) (Yup.Object o)) = [].
Proof.
  split.
  - intros H k _. now rewrite H.
  - intros H. cbn [Yup.check]. apply flat_map_nil. intros [k s] Hin.
    cbn [fst snd].
    assert (Hk : In k (map fst fs)) by (apply (in_map fst _ _ Hin)).
    specialize (H k Hk). rewrite field_errors_object in H.
    pose proof (proj1 (flat_map_nil _ _) H (k, s) Hin) as Hks.
    cbn [fst snd] in Hks. rewrite String.eqb_refl in Hks.
    rewrite Hks. reflexivity.
Qed.

Lemma pxe_mac_valid ps v :
  Yup.field_errors "pxe_mac"
    (Yup.validate (generateMachineSchema ps) (Values.to_data v)) = []
  <-> mac_or_absent (Values.pxe_mac v) = true
      /\ (filled (Values.pxe_mac v) = true
          \/ Values.power_type v = JS.Str "ipmi").
Proof.
  rewrite pxe_mac_check. unfold mac_or_absent, filled.
  cbn [Yup.check Yup.resolve fold_left Yup.get String.eqb Ascii.eqb Bool.eqb
       Yup.strict_eq].
  destruct (JS.strict_eq (Yup.cast_string (Values.power_type v)) (JS.Str "ipmi"))
    eqn:Hipmi;
    [pose proof (proj1 (cast_string_ipmi _) Hipmi) as Htype
    |pose proof (proj1 (cast_string_not_ipmi _) Hipmi) as Htype];
    destruct (cast_string_shape (Values.pxe_mac v)) as [H|[s H]]; rewrite H;
    cbn [negb Yup.concat_tests fold_left Yup.add_test Yup.exclusive
         Yup.test_name String.eqb Ascii.eqb Bool.eqb filter app
         Yup.failures flat_map Yup.passes Yup.message Yup.here map];
    rewrite ?found_mac_regex;
    try destruct (six_octets s); try destruct (s =? "");
    cbn [app negb map];
    intuition (try congruence; try discriminate).
Qed.

(** X5: the form validates exactly when the five selectors are filled,
    every secondary address that is given and the primary address if
    given are six octets, the primary address is given unless the power
    type is "ipmi", and the power parameters pass their own schema. *)
Theorem machine_schema_valid ps v :
  Yup.validate (generateMachineSchema ps) (Values.to_data v) = []
  <-> filled (Values.architecture v) = true
      /\ filled (Values.domain v) = true
      /\ filled (Values.pool v) = true
      /\ filled (Values.power_type v) = true
      /\ filled (Values.zone v) = true
      /\ forallb mac_or_absent (Values.extra_macs v) = true
      /\ mac_or_absent (Values.pxe_mac v) = true
      /\ (filled (Values.pxe_mac v) = true
          \/ Values.power_type v = JS.Str "ipmi")
      /\ Yup.validate (Yup.SObject ps)
           (Yup.Object (map (fun kv => (fst kv, Yup.Scalar (snd kv)))
                            (Values.power_parameters v))) = [].
Proof.
  pose proof (architecture_errors ps v) as Harch.
  pose proof (domain_errors ps v) as Hdomain.
  pose proof (pool_errors ps v) as Hpool.
  pose proof (power_type_errors ps v) as Htype.
  pose proof (zone_errors ps v) as Hzone.
  pose proof (hostname_errors ps v) as Hhost.
  pose proof (min_hwe_kernel_errors ps v) as Hkernel.
  pose proof (nested_field_errors ps v) as Hnested.
  pose proof (extra_macs_errors ps v) as Hmacs.
  pose proof (pxe_mac_valid ps v) as Hpxe.
  assert (Hfields :
    Yup.validate (generateMachineSchema ps) (Values.to_data v) = []
    <-> forall k,
          In k ["architecture"; "domain"; "extra_macs"; "hostname";
                "min_hwe_kernel"; "pool"; "power_parameters"; "power_type";
                "pxe_mac"; "zone"] ->
          Yup.field_errors k
            (Yup.validate (generateMachineSchema ps) (Values.to_data v)) = []).
  { unfold Yup.validate, generateMachineSchema, Values.to_data, Yup.object_shape.
    cbn [Yup.cast]. apply object_valid. }
  rewrite Hfields. clear Hfields.
  unfold Yup.indexed in Hmacs.
  split.
  - intros H.
    pose proof (H "architecture") as H1. pose proof (H "domain") as H2.
    pose proof (H "pool") as H3. pose proof (H "power_type") as H4.
    pose proof (H "zone") as H5. pose proof (H "extra_macs") as H6.
    pose proof (H "pxe_mac") as H7. pose proof (H "power_parameters") as H8.
    rewrite Harch in H1. rewrite Hdomain in H2. rewrite Hpool in H3.
    rewrite Htype in H4. rewrite Hzone in H5. rewrite Hmacs in H6.
    rewrite Hnested in H8.
    repeat split.
    + destruct (filled (Values.architecture v)); [reflexivity|].
      discriminate H1. cbn; tauto.
    + destruct (filled (Values.domain v)); [reflexivity|].
      discriminate H2. cbn; tauto.
    + destruct (filled (Values.pool v)); [reflexivity|].
      discriminate H3. cbn; tauto.
    + destruct (filled (Values.power_type v)); [reflexivity|].
      discriminate H4. cbn; tauto.
    + destruct (filled (Values.zone v)); [reflexivity|].
      discriminate H5. cbn; tauto.
    + apply (extra_macs_valid _ 0). apply H6. cbn; tauto.
    + apply Hpxe. apply H7. cbn; tauto.
    + apply Hpxe. apply H7. cbn; tauto.
    + apply H8. cbn; tauto.
  - intros (F1 & F2 & F3 & F4 & F5 & F6 & F7 & F8 & F9) k Hk.
    cbn [In] in Hk.
    repeat (destruct Hk as [<-|Hk]); try destruct Hk.
    + now rewrite Harch, F1.
    + now rewrite Hdomain, F2.
    + rewrite Hmacs. now apply extra_macs_valid.
    + exact Hhost.
    + exact Hkernel.
    + now rewrite Hpool, F3.
    + now rewrite Hnested.
    + now rewrite Htype, F4.
    + apply Hpxe. now split.
    + now rewrite Hzone, F5.
Qed.

(** ** The shape of an accepted address *)

Lemma length_list_ascii_of_string s :
  List.length (list_ascii_of_string s) = String.length s.
Proof. induction s as [|c s IH]; cbn; [reflexivity|now rewrite IH]. Qed.

Lemma octets_shape n : forall l,
  octets n l = true ->
  List.length l = 3 * n + 2
  /\ Forall (fun c => is_hex_digit c || Ascii.eqb c ":"%char = true) l.
Proof.
  induction n as [|n IH]; intros l H;
    destruct l as [|a [|b rest]]; cbn [octets] in H; try discriminate;
    apply andb_true_iff in H; destruct H as [Hab Hrest];
    apply andb_true_iff in Hab; destruct Hab as [Ha Hb].
  - destruct rest; [|discriminate]. split; [reflexivity|].
    repeat constructor; now rewrite ?Ha, ?Hb.
  - destruct rest as [|c rest]; [discriminate|].
    apply andb_true_iff in Hrest. destruct Hrest as [Hc Hrest].
    destruct (IH rest Hrest) as [Hlen Hall]. split.
    + cbn [List.length]. lia.
    + repeat constructor; rewrite ?Ha, ?Hb, ?Hc, ?orb_true_r; auto.
Qed.

(** X6: a string the pattern of the schema accepts has exactly 17
    characters, each a hexadecimal digit or a colon. *)
Theorem accepted_mac_shape s :
  Regex.found mac_regex s = true ->
  String.length s = 17
  /\ Forall (fun c => is_hex_digit c || Ascii.eqb c ":"%char = true)
            (list_ascii_of_string s).
Proof.
  rewrite found_mac_regex. unfold six_octets. intros H.
  apply octets_shape in H. rewrite length_list_ascii_of_string in H.
  exact H.
Qed.

(** ** When the banner is empty *)

Lemma length_append (a b : string) :
  String.length (a ++ b) = String.length a + String.length b.
Proof. induction a as [|c a IH]; cbn; [reflexivity|now rewrite IH]. Qed.

Lemma errors_fold_grows o : forall keys acc,
  String.length acc + List.length keys
  <= String.length
       (fold_left
          (fun errors key => errors ++ (JS.to_string (object_get o key) ++ " "))
          keys acc).
Proof.
  induction keys as [|k keys IH]; intros acc; cbn [fold_left List.length].
  - lia.
  - specialize (IH (acc ++ (JS.to_string (object_get o k) ++ " "))).
    rewrite !length_append in IH. cbn [String.length] in IH. lia.
Qed.

(** X7: the error string is empty exactly when there is nothing to
    show: no payload, the empty string, or an object without keys. *)
Theorem errors_empty_iff (machineErrors : MachineErrors) :
  errors machineErrors = ""
  <-> machineErrors = NoErrors
      \/ machineErrors = ErrorString ""
      \/ machineErrors = ErrorObject [].
Proof.
  split.
  - destruct machineErrors as [|s|o]; [now left| |].
    + cbn [errors JS.truthy]. destruct (String.eqb_spec s "") as [->|Hs].
      * intros _. right. now left.
      * cbn [negb]. intros ->. now elim Hs.
    + destruct o as [|kv o]; [intros _; right; now right|].
      intros H. exfalso. cbn [errors] in H.
      pose proof (errors_fold_grows (kv :: o) (object_keys (kv :: o)) "") as Hlen.
      rewrite H in Hlen. cbn in Hlen. lia.
  - intros [->|[->| ->]]; reflexivity.
Qed.

(** ** Submission, continued *)

Lemma find_by_name_first_name (xs : list Item) :
  find_by_name xs (first_name xs) = hd_error xs.
Proof.
  rewrite first_name_spec. destruct xs as [|x xs]; [reflexivity|].
  unfold find_by_name. cbn [find JS.strict_eq hd_error].
  now rewrite String.eqb_refl.
Qed.

(** X8: submitting the form as it was initialised sends, for the
    domain, the resource pool and the zone, the first record of each
    collection, and [undefined] for a collection that is empty. *)
Theorem untouched_form_sends_first_records store st :
  exists params,
    snd (onSubmit store st (initialValues store)) = [MachineCreate params] /\
    Params.domain params = hd_error (Store.domains store) /\
    Params.pool params = hd_error (Store.resourcePools store) /\
    Params.zone params = hd_error (Store.zones store).
Proof.
  eexists. split; [reflexivity|].
  cbn [Params.domain Params.pool Params.zone initialValues
       Values.domain Values.pool Values.zone].
  now rewrite !find_by_name_first_name.
Qed.

Lemma find_by_name_first items v item :
  find_by_name items v = Some item ->
  exists before after,
    items = (before ++ item :: after)%list /\
    forall earlier, In earlier before -> v <> JS.Str (name earlier).
Proof.
  unfold find_by_name.
  induction items as [|x items IH]; cbn [find]; [discriminate|].
  destruct (JS.strict_eq (JS.Str (name x)) v) eqn:Hx.
  - intros H. inversion H; subst. exists [], items. split; [reflexivity|].
    intros earlier [].
  - intros H. destruct (IH H) as (before & after & -> & Hbefore).
    exists (x :: before), after. split; [reflexivity|].
    intros earlier [<-|Hin]; [|now apply Hbefore].
    intros Hv. apply strict_eq_str in Hv. congruence.
Qed.

(** X9: the record [onSubmit] sends for a name is the first of its
    collection that bears the name: no record before it does. *)
Theorem onSubmit_sends_first_of_name store st values :
  exists params,
    snd (onSubmit store st values) = [MachineCreate params] /\
    (forall item, Params.domain params = Some item ->
       exists before after,
         Store.domains store = (before ++ item :: after)%list /\
         forall earlier, In earlier before ->
           Values.domain values <> JS.Str (name earlier)) /\
    (forall item, Params.pool params = Some item ->
       exists before after,
         Store.resourcePools store = (before ++ item :: after)%list /\
         forall earlier, In earlier before ->
           Values.pool values <> JS.Str (name earlier)) /\
    (forall item, Params.zone params = Some item ->
       exists before after,
         Store.zones store = (before ++ item :: after)%list /\
         forall earlier, In earlier before ->
           Values.zone values <> JS.Str (name earlier)).
Proof.
  eexists. split; [reflexivity|].
  cbn [Params.domain Params.pool Params.zone].
  repeat split; intros item H; now apply find_by_name_first.
Qed.

Lemma find_by_name_unique items item :
  NoDup (map name items) -> In item items ->
  find_by_name items (JS.Str (name item)) = Some item.
Proof.
  intros Hnd Hin.
  destruct (find_by_name items (JS.Str (name item))) as [found|] eqn:Hfind.
  - destruct (find_by_name_some _ _ Hfind) as [Hfound Hname].
    inversion Hname as [Heq]. f_equal.
    clear Hfind Hname. induction items as [|x items IH]; [destruct Hin|].
    cbn [map] in Hnd. inversion Hnd as [|? ? Hx Hnd']; subst.
    destruct Hin as [->|Hin], Hfound as [->|Hfound]; try reflexivity.
    + exfalso. apply Hx. rewrite Heq. now apply in_map.
    + exfalso. apply Hx. rewrite <- Heq. now apply in_map.
    + now apply IH.
  - exfalso. apply find_by_name_none in Hfind. apply Hfind.
    now apply (in_map (fun i => JS.Str (name i))).
Qed.

(** X10: where the names of a collection are distinct, submitting the
    name of one of its records sends that very record. *)
Theorem onSubmit_resolves_unique_names store st values domain pool zone :
  NoDup (map name (Store.domains store)) ->
  NoDup (map name (Store.resourcePools store)) ->
  NoDup (map name (Store.zones store)) ->
  In domain (Store.domains store) ->
  In pool (Store.resourcePools store) ->
  In zone (Store.zones store) ->
  Values.domain values = JS.Str (name domain) ->
  Values.pool values = JS.Str (name pool) ->
  Values.zone values = JS.Str (name zone) ->
  exists params,
    snd (onSubmit store st values) = [MachineCreate params] /\
    Params.domain params = Some domain /\
    Params.pool params = Some pool /\
    Params.zone params = Some zone.
Proof.
  intros Nd Np Nz Hd Hp Hz Vd Vp Vz.
  eexists. split; [reflexivity|].
  cbn [Params.domain Params.pool Params.zone].
  rewrite Vd, Vp, Vz.
  now rewrite !find_by_name_unique.
Qed.


(** ** Runs of events *)

Lemma run_keeps_flag_unset trace : forall st,
  State.resetOnSave st = false ->
  Forall (fun se => snd se <> SecondarySubmit) trace ->
  State.resetOnSave (run trace st) = false.
Proof.
  induction trace as [|[store ev] trace IH]; intros st Hst Hall;
    cbn [run]; [assumption|].
  inversion Hall as [|? ? Hev Hrest]; subst. cbn [snd] in Hev.
  apply IH; [|assumption].
  rewrite resetOnSave_after_step.
  destruct ev; try assumption; [now elim Hev|].
  now rewrite Hst.
Qed.

(** X12: as long as "save and add another" is not chosen, the flag
    stays unset through every submission, change and render, and the
    form is rendered to navigate to "/machines" on save. *)
Theorem plain_save_always_navigates trace st store :
  State.resetOnSave st = false ->
  Forall (fun se => snd se <> SecondarySubmit) trace ->
  allLoaded store = true ->
  State.resetOnSave (run trace st) = false /\
  exists form,
    render store (run trace st) = FormCard false "Add machine" form /\
    FormikForm.savedRedirect form = Some "/machines" /\
    FormikForm.resetOnSave form = false /\
    fst (fst (FormikForm.onSaveAnalytics form)) = "Save".
Proof.
  intros Hst Hall Hloaded.
  pose proof (run_keeps_flag_unset st Hst Hall) as Hflag.
  split; [assumption|].
  unfold render. rewrite Hloaded. cbn [negb].
  eexists. split; [reflexivity|].
  cbn [FormikForm.savedRedirect FormikForm.resetOnSave
       FormikForm.onSaveAnalytics fst].
  now rewrite Hflag.
Qed.

(** ** The form as initialised *)

Lemma field_errors_in k p m es :
  In (p, m) (Yup.field_errors k es) -> In (Yup.Key k :: p, m) es.
Proof.
  unfold Yup.field_errors. rewrite in_flat_map.
  intros [[q n] [Hin Hsel]]. cbn [fst snd] in Hsel.
  destruct q as [|[k'|i] rest]; try destruct Hsel.
  destruct (String.eqb_spec k' k) as [->|]; [|destruct Hsel].
  destruct Hsel as [Heq|[]]. inversion Heq; subst. exact Hin.
Qed.

(** X13: the initial values never validate: whatever the collections
    hold, no power type is selected yet and the schema asks for one. *)
Theorem initial_values_lack_power_type store ps :
  In ([Yup.Key "power_type"], "Power type required")
     (Yup.validate (generateMachineSchema ps)
        (Values.to_data (initialValues store))).
Proof.
  apply field_errors_in.
  rewrite power_type_errors. now left.
Qed.

(** ** The addresses of the name column *)

#[local] Abbreviation push_new :=
  (fun (ipAddresses : list string) (ip : string) =>
     if NameColumn.includes ipAddresses ip then ipAddresses
     else (ipAddresses ++ [ip])%list).

Lemma includes_In ipAddresses ip :
  NameColumn.includes ipAddresses ip = true <-> In ip ipAddresses.
Proof.
  unfold NameColumn.includes. rewrite existsb_exists. split.
  - intros [x [Hin Heq]]. apply String.eqb_eq in Heq. now subst.
  - intros Hin. exists ip. split; [assumption|apply String.eqb_refl].
Qed.

Lemma visit_fst state address :
  fst (NameColumn.visit state address)
  = push_new (fst state) (NameColumn.label address).
Proof.
  unfold NameColumn.visit, NameColumn.label.
  destruct (NameColumn.is_boot address);
    destruct (NameColumn.includes (fst state) _); reflexivity.
Qed.

Lemma visit_snd state address :
  snd (NameColumn.visit state address)
  = if NameColumn.is_boot address
    then Some (NameColumn.ip address ++ " (PXE)")
    else snd state.
Proof.
  unfold NameColumn.visit.
  destruct (NameColumn.is_boot address);
    destruct (NameColumn.includes (fst state) _); reflexivity.
Qed.

Lemma fold_visit_fst addresses : forall state,
  fst (fold_left NameColumn.visit addresses state)
  = fold_left push_new (map NameColumn.label addresses) (fst state).
Proof.
  induction addresses as [|a addresses IH]; intros state;
    cbn [fold_left map]; [reflexivity|].
  now rewrite IH, visit_fst.
Qed.

Lemma fold_visit_snd_no_boot addresses : forall state,
  Forall (fun a => NameColumn.is_boot a = false) addresses ->
  snd (fold_left NameColumn.visit addresses state) = snd state.
Proof.
  induction addresses as [|a addresses IH]; intros state Hall;
    cbn [fold_left]; [reflexivity|].
  inversion Hall as [|? ? Ha Hrest]; subst.
  rewrite IH by assumption. now rewrite visit_snd, Ha.
Qed.

Lemma push_new_keeps_prefix labels : forall ipAddresses,
  exists tail,
    fold_left push_new labels ipAddresses = (ipAddresses ++ tail)%list.
Proof.
  induction labels as [|x labels IH]; intros ipAddresses; cbn [fold_left].
  - exists []. now rewrite app_nil_r.
  - destruct (NameColumn.includes ipAddresses x).
    + apply IH.
    + destruct (IH (ipAddresses ++ [x])%list) as [tail ->].
      exists (x :: tail). now rewrite <- app_assoc.
Qed.

(** The loop keeps the first occurrence of every label, in order. *)
Lemma push_new_first_occurrences labels :
  fold_left push_new labels []
  = rev (nodup string_dec (rev labels)).
Proof.
  induction labels as [|x labels IH] using rev_ind; [reflexivity|].
  rewrite fold_left_app, rev_app_distr. cbn [fold_left rev app nodup].
  rewrite IH.
  destruct (in_dec string_dec x (rev labels)) as [Hin|Hnot].
  - assert (H : NameColumn.includes (rev (nodup string_dec (rev labels))) x = true).
    { apply includes_In. apply -> in_rev. now apply nodup_In. }
    now rewrite H.
  - assert (H : NameColumn.includes (rev (nodup string_dec (rev labels))) x = false).
    { destruct (NameColumn.includes _ x) eqn:E; [|reflexivity].
      exfalso. apply Hnot. apply includes_In in E.
      apply in_rev in E. now apply nodup_In in E. }
    rewrite H. reflexivity.
Qed.

Lemma collect_first_occurrences addresses :
  fst (NameColumn.collect {| NameColumn.ip_addresses := Some addresses |})
  = rev (nodup string_dec (rev (map NameColumn.label addresses))).
Proof.
  unfold NameColumn.collect. cbn [NameColumn.ip_addresses].
  rewrite fold_visit_fst. apply push_new_first_occurrences.
Qed.

Lemma collect_In addresses x :
  In x (fst (NameColumn.collect {| NameColumn.ip_addresses := Some addresses |}))
  <-> exists address, In address addresses /\ x = NameColumn.label address.
Proof.
  rewrite collect_first_occurrences, <- in_rev, nodup_In, <- in_rev, in_map_iff.
  split; intros [a [H1 H2]]; exists a; auto.
Qed.

Lemma collect_NoDup addresses :
  NoDup (fst (NameColumn.collect {| NameColumn.ip_addresses := Some addresses |})).
Proof.
  rewrite collect_first_occurrences. apply NoDup_rev, NoDup_nodup.
Qed.

(** X14: the addresses gathered for display are the labels of the
    machine's addresses, each once, in the order of their first
    occurrence; a boot address is labelled with its mark. *)
Theorem shown_addresses_distinct addresses :
  let ipAddresses :=
    fst (NameColumn.collect {| NameColumn.ip_addresses := Some addresses |}) in
  ipAddresses = rev (nodup string_dec (rev (map NameColumn.label addresses)))
  /\ NoDup ipAddresses
  /\ forall x,
       In x ipAddresses
       <-> exists address, In address addresses /\ x = NameColumn.label address.
Proof.
  cbv zeta. split; [apply collect_first_occurrences|].
  split; [apply collect_NoDup|]. intros x. apply collect_In.
Qed.

Lemma generate_none machine :
  fst (NameColumn.collect machine) = [] ->
  NameColumn.generateIPAddresses machine = NameColumn.EmptyString.
Proof.
  intros H. unfold NameColumn.generateIPAddresses. now rewrite H.
Qed.

Lemma generate_one machine a :
  fst (NameColumn.collect machine) = [a] ->
  NameColumn.generateIPAddresses machine =
  NameColumn.Line
    {| NameColumn.title := Some a;
       NameColumn.shown :=
         JS.or_
           (match snd (NameColumn.collect machine) with
            | Some b => JS.Str b
            | None => JS.Undefined
            end)
           (JS.Str a);
       NameColumn.more := None |}.
Proof.
  intros H. unfold NameColumn.generateIPAddresses. now rewrite H.
Qed.

Lemma generate_many machine a b rest :
  fst (NameColumn.collect machine) = a :: b :: rest ->
  NameColumn.generateIPAddresses machine =
  NameColumn.Tooltip "btm-left" (S (S (List.length rest))) (a :: b :: rest)
    "p-double-row__tooltip-inner"
    {| NameColumn.title := None;
       NameColumn.shown :=
         JS.or_
           (match snd (NameColumn.collect machine) with
            | Some b => JS.Str b
            | None => JS.Undefined
            end)
           (JS.Str a);
       NameColumn.more :=
         Some (" (+" ++ JS.to_string (JS.Num (S (List.length rest))) ++ ")") |}.
Proof.
  intros H. unfold NameColumn.generateIPAddresses. rewrite H.
  cbn [List.length JS.truthy Nat.eqb negb Nat.ltb Nat.leb JS.index nth_error
       Nat.sub].
  reflexivity.
Qed.

(** X15: nothing is rendered exactly for a machine without addresses;
    the plain line, without tooltip, exactly when the machine has
    addresses and all of them appear as the same label. *)
Theorem addresses_element_by_input addresses :
  let machine := {| NameColumn.ip_addresses := Some addresses |} in
  (NameColumn.generateIPAddresses machine = NameColumn.EmptyString
   <-> addresses = []) /\
  ((exists span, NameColumn.generateIPAddresses machine = NameColumn.Line span)
   <-> addresses <> []
       /\ forall x y, In x addresses -> In y addresses ->
            NameColumn.label x = NameColumn.label y) /\
  NameColumn.generateIPAddresses {| NameColumn.ip_addresses := None |}
  = NameColumn.EmptyString.
Proof.
  cbv zeta.
  set (machine := {| NameColumn.ip_addresses := Some addresses |}).
  pose proof (collect_In addresses) as Hmem. fold machine in Hmem.
  pose proof (collect_NoDup addresses) as Hnd. fold machine in Hnd.
  split; [|split; [|reflexivity]].
  - split.
    + intros Hgen. destruct addresses as [|a addresses]; [reflexivity|].
      exfalso.
      assert (Hin : In (NameColumn.label a) (fst (NameColumn.collect machine)))
        by (apply Hmem; exists a; split; [now left|reflexivity]).
      destruct (fst (NameColumn.collect machine)) as [|s1 [|s2 t]] eqn:Hshown.
      * destruct Hin.
      * rewrite (generate_one machine Hshown) in Hgen. discriminate.
      * rewrite (generate_many machine Hshown) in Hgen. discriminate.
    + intros ->. reflexivity.
  - split.
    + intros [span Hgen].
      destruct (fst (NameColumn.collect machine)) as [|s1 [|s2 t]] eqn:Hshown.
      * rewrite (generate_none machine Hshown) in Hgen. discriminate.
      * split.
        -- intros ->. discriminate Hshown.
        -- intros x y Hx Hy.
           assert (Hlx : In (NameColumn.label x) [s1])
             by (apply Hmem; exists x; auto).
           assert (Hly : In (NameColumn.label y) [s1])
             by (apply Hmem; exists y; auto).
           destruct Hlx as [<-|[]], Hly as [<-|[]]. reflexivity.
      * rewrite (generate_many machine Hshown) in Hgen. discriminate.
    + intros [Hne Hsame].
      destruct addresses as [|a0 rest]; [now elim Hne|].
      assert (Hall : forall s, In s (fst (NameColumn.collect machine)) ->
                               s = NameColumn.label a0).
      { intros s Hs. apply Hmem in Hs. destruct Hs as [a [Ha ->]].
        apply Hsame; [assumption|now left]. }
      assert (Hin : In (NameColumn.label a0) (fst (NameColumn.collect machine)))
        by (apply Hmem; exists a0; split; [now left|reflexivity]).
      destruct (fst (NameColumn.collect machine)) as [|s1 [|s2 t]] eqn:Hshown.
      * destruct Hin.
      * eexists. apply (generate_one machine Hshown).
      * exfalso. inversion Hnd as [|? ? Hnot _]; subst. apply Hnot.
        rewrite (Hall s1) by now left.
        rewrite <- (Hall s2) by (right; now left). now left.
Qed.

Lemma length_nodup_rev (l : list string) :
  List.length (nodup string_dec (rev l)) = List.length (nodup string_dec l).
Proof.
  apply Nat.le_antisymm; apply NoDup_incl_length;
    try apply NoDup_nodup;
    intros x Hx; apply nodup_In; apply nodup_In in Hx;
    [now apply in_rev|now apply -> in_rev].
Qed.

(** X16: where a tooltip is rendered, it lists the gathered addresses,
    at least two and all distinct; the count it announces is the number
    of distinct labels of the machine's addresses, and the line says how
    many there are besides the one it shows. *)
Theorem tooltip_lists_distinct_addresses addresses position interfaces items
  className span :
  NameColumn.generateIPAddresses {| NameColumn.ip_addresses := Some addresses |}
  = NameColumn.Tooltip position interfaces items className span ->
  items = rev (nodup string_dec (rev (map NameColumn.label addresses)))
  /\ NoDup items
  /\ interfaces = List.length (nodup string_dec (map NameColumn.label addresses))
  /\ 2 <= interfaces
  /\ NameColumn.title span = None
  /\ NameColumn.more span
     = Some (" (+" ++ JS.to_string (JS.Num (interfaces - 1)) ++ ")").
Proof.
  set (machine := {| NameColumn.ip_addresses := Some addresses |}).
  pose proof (collect_first_occurrences addresses) as Heq. fold machine in Heq.
  pose proof (collect_NoDup addresses) as Hnd. fold machine in Hnd.
  intros Hgen.
  destruct (fst (NameColumn.collect machine)) as [|s1 [|s2 t]] eqn:Hshown.
  - rewrite (generate_none machine Hshown) in Hgen. discriminate.
  - rewrite (generate_one machine Hshown) in Hgen. discriminate.
  - rewrite (generate_many machine Hshown) in Hgen.
    inversion Hgen; subst. clear Hgen.
    assert (Hlen : S (S (List.length t))
                   = List.length (nodup string_dec (map NameColumn.label addresses))).
    { rewrite <- length_nodup_rev.
      rewrite <- (length_rev (nodup string_dec (rev (map NameColumn.label addresses)))).
      rewrite <- Heq. reflexivity. }
    split; [exact Heq|]. split; [exact Hnd|]. split; [exact Hlen|].
    split; [lia|]. split; [reflexivity|].
    cbn [NameColumn.more Nat.sub]. reflexivity.
Qed.

Lemma marked_label_truthy ip :
  JS.truthy (JS.Str (ip ++ " (PXE)")) = true.
Proof. destruct ip; reflexivity. Qed.

Lemma generate_shown machine :
  fst (NameColumn.collect machine) <> [] ->
  exists span,
    (NameColumn.generateIPAddresses machine = NameColumn.Line span
     \/ exists interfaces items,
          NameColumn.generateIPAddresses machine
          = NameColumn.Tooltip "btm-left" interfaces items
              "p-double-row__tooltip-inner" span)
    /\ NameColumn.shown span
       = JS.or_
           (match snd (NameColumn.collect machine) with
            | Some b => JS.Str b
            | None => JS.Undefined
            end)
           (JS.index JS.Str (fst (NameColumn.collect machine)) 0).
Proof.
  intros Hne.
  destruct (fst (NameColumn.collect machine)) as [|s1 [|s2 t]] eqn:Hshown.
  - now elim Hne.
  - eexists. split; [left; apply (generate_one machine Hshown)|reflexivity].
  - eexists. split;
      [right; eexists; eexists; apply (generate_many machine Hshown)
      |reflexivity].
Qed.

(** X17: when the machine has a boot address, the address the line
    shows is the last boot address with its mark, wherever it stands
    among the others. *)
Theorem boot_address_is_shown before boot after :
  NameColumn.is_boot boot = true ->
  Forall (fun a => NameColumn.is_boot a = false) after ->
  let machine :=
    {| NameColumn.ip_addresses := Some (before ++ boot :: after)%list |} in
  exists span,
    (NameColumn.generateIPAddresses machine = NameColumn.Line span
     \/ exists interfaces items,
          NameColumn.generateIPAddresses machine
          = NameColumn.Tooltip "btm-left" interfaces items
              "p-double-row__tooltip-inner" span)
    /\ NameColumn.shown span = JS.Str (NameColumn.ip boot ++ " (PXE)")
    /\ In (NameColumn.ip boot ++ " (PXE)") (fst (NameColumn.collect machine)).
Proof.
  intros Hboot Hafter machine.
  assert (Hin : In (NameColumn.ip boot ++ " (PXE)")
                   (fst (NameColumn.collect machine))).
  { apply collect_In. exists boot. split.
    - apply in_or_app. right. now left.
    - unfold NameColumn.label. now rewrite Hboot. }
  assert (Hsnd : snd (NameColumn.collect machine)
                 = Some (NameColumn.ip boot ++ " (PXE)")).
  { unfold NameColumn.collect, machine. cbn [NameColumn.ip_addresses].
    rewrite fold_left_app. cbn [fold_left].
    rewrite fold_visit_snd_no_boot by assumption.
    now rewrite visit_snd, Hboot. }
  destruct (generate_shown machine) as [span [Hgen Hshown]].
  { intros Hnil. rewrite Hnil in Hin. destruct Hin. }
  exists span. split; [exact Hgen|]. split; [|exact Hin].
  rewrite Hshown, Hsnd. unfold JS.or_. now rewrite marked_label_truthy.
Qed.

(** X18: when the machine has no boot address, the address the line
    shows is that of the machine's first address. *)
Theorem first_address_is_shown first rest :
  Forall (fun a => NameColumn.is_boot a = false) (first :: rest) ->
  let machine := {| NameColumn.ip_addresses := Some (first :: rest) |} in
  exists span,
    (NameColumn.generateIPAddresses machine = NameColumn.Line span
     \/ exists interfaces items,
          NameColumn.generateIPAddresses machine
          = NameColumn.Tooltip "btm-left" interfaces items
              "p-double-row__tooltip-inner" span)
    /\ NameColumn.shown span = JS.Str (NameColumn.ip first).
Proof.
  intros Hall machine.
  assert (Hsnd : snd (NameColumn.collect machine) = None).
  { unfold NameColumn.collect, machine. cbn [NameColumn.ip_addresses].
    now rewrite fold_visit_snd_no_boot. }
  assert (Hfirst : NameColumn.label first = NameColumn.ip first).
  { inversion Hall as [|? ? H _]; subst. unfold NameColumn.label.
    now rewrite H. }
  assert (Hfst : exists tail,
             fst (NameColumn.collect machine) = NameColumn.ip first :: tail).
  { unfold NameColumn.collect, machine. cbn [NameColumn.ip_addresses].
    rewrite fold_visit_fst.
    cbn [map fold_left fst NameColumn.includes existsb app].
    rewrite Hfirst.
    destruct (push_new_keeps_prefix (map NameColumn.label rest)
                [NameColumn.ip first]) as [tail ->].
    now exists tail. }
  destruct Hfst as [tail Hfst].
  destruct (generate_shown machine) as [span [Hgen Hshown]].
  { rewrite Hfst. discriminate. }
  exists span. split; [exact Hgen|].
  now rewrite Hshown, Hsnd, Hfst.
Qed.

End Component.

(** ** The properties on concrete inputs *)

(** The initial values of the one-item collections select the item of
    each. *)
Example initialValues_one_item :
  initialValues Scenario.useAllPowerParameters (Scenario.store false)
  = Scenario.values (JS.Str "maas") (JS.Str "") (JS.Str "") (JS.Str "") [].
Proof. reflexivity. Qed.

(** The "manual" power type with no primary address: the one error of
    the whole form is on the primary address. *)
Example manual_without_address_rejected :
  Yup.validate (generateMachineSchema [])
    (Values.to_data Scenario.manual_no_address)
  = [([Yup.Key "pxe_mac"], "At least one MAC address required")].
Proof. reflexivity. Qed.

Example two_extra_macs_one_error :
  Yup.validate (generateMachineSchema [])
    (Values.to_data Scenario.two_extra_macs)
  = [([Yup.Key "extra_macs"; Yup.Index 1], "Invalid MAC address")].
Proof. reflexivity. Qed.

(** The "ipmi" power type with no primary address passes the [pxe_mac]
    rule. *)
Lemma ipmi_without_address_validates :
  Yup.field_errors "pxe_mac"
    (Yup.validate (generateMachineSchema []) (Values.to_data Scenario.ipmi_no_address))
  = [].
Proof.
  exact (proj2 (proj2 (pxe_mac_required_unless_ipmi []
                         Scenario.ipmi_no_address (or_introl eq_refl))
                      eq_refl)
               eq_refl).
Defined.

(** Under "ipmi" too, a malformed primary address is an error. *)
Lemma ipmi_bad_address_rejected :
  In ([], "Invalid MAC address")
     (Yup.field_errors "pxe_mac"
        (Yup.validate (generateMachineSchema [])
           (Values.to_data Scenario.ipmi_bad_address))).
Proof.
  exact (proj2 (proj1 (pxe_mac_pattern_any_power_type []
                         Scenario.ipmi_bad_address eq_refl))
               eq_refl).
Defined.

(** Of one well-formed and one malformed secondary address, exactly the
    second is in error. *)
Lemma second_extra_mac_rejected :
  Yup.field_errors "extra_macs"
    (Yup.validate (generateMachineSchema []) (Values.to_data Scenario.two_extra_macs))
  = [([Yup.Index 1], "Invalid MAC address")].
Proof.
  exact (proj1 (extra_macs_checked_entrywise []
                  Scenario.two_extra_macs
                  ["AA:BB:CC:DD:EE:FF"; "not-a-mac"] eq_refl)).
Defined.

(** The payload [{pool: "Pool not found"}] is displayed with its
    trailing space. *)
Lemma pool_not_found_displayed :
  errors (ErrorObject [("pool", "Pool not found")]) = "Pool not found ".
Proof.
  refine (proj1 (errors_normalised [("pool", "Pool not found")] _)).
  constructor; [intros []|constructor].
Defined.




(** C1 as stated fails: the domain "gone" is not among the loaded
    domains, and [onSubmit] dispatches the creation command all the
    same, its domain undefined. *)
Lemma stale_domain_still_dispatched :
  ~ In (Values.domain Scenario.stale_domain)
       (map (fun item => JS.Str (name item)) (Store.domains (Scenario.store false)))
  /\ snd (onSubmit Scenario.formatPowerParameters (Scenario.store false)
            State.initial Scenario.stale_domain)
     = [MachineCreate
          {| Params.architecture := JS.Str "amd64";
             Params.domain := None;
             Params.extra_macs := [];
             Params.hostname := JS.Str "node1";
             Params.min_hwe_kernel := JS.Str "";
             Params.pool := Some {| item_id := 0; name := "default" |};
             Params.power_parameters := [];
             Params.power_type := JS.Str "manual";
             Params.pxe_mac := JS.Str "AA:BB:CC:DD:EE:FF";
             Params.zone := Some {| item_id := 1; name := "default" |} |}].
Proof.
  split; [|reflexivity].
  cbn. intros [H|[]]. discriminate H.
Qed.

(** ** The further properties on concrete inputs *)

Lemma upper_case_mac_shape :
  String.length "AA:BB:CC:DD:EE:FF" = 17
  /\ Forall (fun c => is_hex_digit c || Ascii.eqb c ":"%char = true)
            (list_ascii_of_string "AA:BB:CC:DD:EE:FF").
Proof.
  exact (accepted_mac_shape "AA:BB:CC:DD:EE:FF" eq_refl).
Defined.

(** With one domain, resource pool and zone of each name, the names
    submitted come back as their records. *)
Lemma names_resolved_to_records :
  exists params,
    snd (onSubmit Scenario.formatPowerParameters (Scenario.store false)
           State.initial Scenario.no_hostname)
    = [MachineCreate params] /\
    Params.domain params = Some {| item_id := 0; name := "maas" |} /\
    Params.pool params = Some {| item_id := 0; name := "default" |} /\
    Params.zone params = Some {| item_id := 1; name := "default" |}.
Proof.
  apply (onSubmit_resolves_unique_names Scenario.formatPowerParameters
           (Scenario.store false) State.initial Scenario.no_hostname
           {| item_id := 0; name := "maas" |}
           {| item_id := 0; name := "default" |}
           {| item_id := 1; name := "default" |});
    try reflexivity;
    try (now left);
    (constructor; [intros []|constructor]).
Defined.

(** A plain save that succeeds: the flag was never set, and the form
    is rendered to navigate. *)
Lemma plain_save_navigates :
  State.resetOnSave
    (run Scenario.formatPowerParameters
       [(Scenario.store false, Submit Scenario.no_hostname);
        (Scenario.store true, Rendered)]
       State.initial) = false /\
  exists form,
    render Scenario.useAllPowerParameters Scenario.usePowerParametersSchema
      (Scenario.store true)
      (run Scenario.formatPowerParameters
         [(Scenario.store false, Submit Scenario.no_hostname);
          (Scenario.store true, Rendered)]
         State.initial)
    = FormCard false "Add machine" form /\
    FormikForm.savedRedirect form = Some "/machines" /\
    FormikForm.resetOnSave form = false /\
    fst (fst (FormikForm.onSaveAnalytics form)) = "Save".
Proof.
  apply (plain_save_always_navigates Scenario.formatPowerParameters
           Scenario.useAllPowerParameters Scenario.usePowerParametersSchema
           (trace := [(Scenario.store false, Submit Scenario.no_hostname);
                      (Scenario.store true, Rendered)])
           State.initial (Scenario.store true));
    try reflexivity.
  repeat constructor; cbn [snd]; discriminate.
Defined.

(** Five addresses, three of them distinct: the tooltip lists the
    three, announces three interfaces, and the line counts two more. *)
Lemma three_addresses_in_tooltip :
  NameColumn.generateIPAddresses Sample.machine
  = NameColumn.Tooltip "btm-left" 3
      ["10.0.0.2"; "10.0.0.1 (PXE)"; "10.0.0.3"]
      "p-double-row__tooltip-inner"
      {| NameColumn.title := None;
         NameColumn.shown := JS.Str "10.0.0.1 (PXE)";
         NameColumn.more := Some " (+2)" |}
  /\ 3 = List.length
           (nodup string_dec (map NameColumn.label Sample.addresses)).
Proof.
  split; [reflexivity|].
  exact (proj1 (proj2 (proj2
           (tooltip_lists_distinct_addresses Sample.addresses
              (position := "btm-left") (interfaces := 3)
              (items := ["10.0.0.2"; "10.0.0.1 (PXE)"; "10.0.0.3"])
              (className := "p-double-row__tooltip-inner")
              (span := {| NameColumn.title := None;
                          NameColumn.shown := JS.Str "10.0.0.1 (PXE)";
                          NameColumn.more := Some " (+2)" |})
              eq_refl)))).
Defined.

(** The boot address of the sample machine, second and fourth of its
    five addresses, is the one shown. *)
Lemma sample_boot_address_shown :
  exists span,
    (NameColumn.generateIPAddresses Sample.machine = NameColumn.Line span
     \/ exists interfaces items,
          NameColumn.generateIPAddresses Sample.machine
          = NameColumn.Tooltip "btm-left" interfaces items
              "p-double-row__tooltip-inner" span)
    /\ NameColumn.shown span = JS.Str "10.0.0.1 (PXE)"
    /\ In "10.0.0.1 (PXE)" (fst (NameColumn.collect Sample.machine)).
Proof.
  refine (boot_address_is_shown
            (firstn 3 Sample.addresses)
            {| NameColumn.ip := "10.0.0.1"; NameColumn.is_boot := true |}
            (after := skipn 4 Sample.addresses)
            eq_refl _).
  repeat constructor.
Defined.

(** Two addresses, none a boot address: the first is shown. *)
Lemma first_of_two_addresses_shown :
  exists span,
    (NameColumn.generateIPAddresses
       {| NameColumn.ip_addresses := Some Sample.plain_addresses |}
     = NameColumn.Line span
     \/ exists interfaces items,
          NameColumn.generateIPAddresses
            {| NameColumn.ip_addresses := Some Sample.plain_addresses |}
          = NameColumn.Tooltip "btm-left" interfaces items
              "p-double-row__tooltip-inner" span)
    /\ NameColumn.shown span = JS.Str "10.0.0.7".
Proof.
  refine (first_address_is_shown
            (first := {| NameColumn.ip := "10.0.0.7"; NameColumn.is_boot := false |})
            (rest := [ {| NameColumn.ip := "10.0.0.4"; NameColumn.is_boot := false |} ])
            _).
  repeat constructor.
Defined.

(** Two domains named "maas" and no resource pool: the untouched form
    sends the first of the two domains and no pool. *)
Example untouched_form_on_sample_store :
  snd (onSubmit Scenario.formatPowerParameters Sample.store State.initial
         (initialValues Scenario.useAllPowerParameters Sample.store))
  = [MachineCreate
       {| Params.architecture := JS.Str "";
          Params.domain := Some {| item_id := 3; name := "maas" |};
          Params.extra_macs := [];
          Params.hostname := JS.Str "";
          Params.min_hwe_kernel := JS.Str "";
          Params.pool := None;
          Params.power_parameters := [];
          Params.power_type := JS.Str "";
          Params.pxe_mac := JS.Str "";
          Params.zone := Some {| item_id := 1; name := "default" |} |}].
Proof. reflexivity. Qed.
